(** * Katha: the authorization and quota gate of the assistant

    A shallow embedding of the client logic of [src/App.tsx] that decides
    whether the generative assistant may be called: the URL authorizer
    ([isUrlAuthorized]), the usage counter kept in [localStorage]
    ([messageCount], [CHAT_LIMIT]), the chat handler ([handleSendMessage])
    and the one-shot story helper ([generateAIAssistance]).

    Conventions of the embedding.
    - A JavaScript string is a [string]; each [ascii] stands for the code
      unit of the same number, so the strings covered are those over
      U+0000..U+00FF.  [toLowerCase] and the white-space class are the
      restrictions of the ECMAScript ones to that range.
    - A JavaScript number that holds a count is [NaN] or [Int z], with
      the arithmetic of the integers.  A double agrees with it on the
      counts called [Exact] below ([NaN] and the integers up to 2^52 in
      size); what is proved of sums, differences and the stored text of
      a count carries that range as a hypothesis.
    - React state is one record; a handler is a function from the state at
      the event to the state after it.  An [async] handler is split at its
      [await]: a [_begin] part that runs up to the provider call and a
      [_settle] part that runs when the promise settles, with the values
      its closure captured passed explicitly.
    - The page is a transition system over the events the rendered
      controls allow; a reload mounts a new page over the storage area
      as it is then.  The tabs of the site share that area: each has its
      own React state, and their events interleave. *)

From Stdlib Require Import ZArith Ascii String List Bool Lia.
From stdpp Require Import base strings list gmap pretty sorting.

Local Open Scope string_scope.

(** ** JavaScript strings *)

Module JsString.

Definition slash : ascii := "/"%char.

(** A string is truthy when it is not empty. *)
Definition truthy (s : string) : bool :=
  match s with
  | EmptyString => false
  | String _ _ => true
  end.

(** [String.prototype.toLowerCase] on U+0000..U+00FF: A-Z, and the
    Latin-1 capitals U+00C0..U+00DE except the multiplication sign
    U+00D7, move up by 32; every other code unit is kept. *)
Definition lowerChar (c : ascii) : ascii :=
  let n := N_of_ascii c in
  if ((65 <=? n) && (n <=? 90))%N then ascii_of_N (n + 32)
  else if ((192 <=? n) && (n <=? 222) && negb (n =? 215))%N
       then ascii_of_N (n + 32)
       else c.

Fixpoint toLowerCase (s : string) : string :=
  match s with
  | EmptyString => EmptyString
  | String c s' => String (lowerChar c) (toLowerCase s')
  end.

(** White space and line terminators of ECMAScript below U+0100: TAB, LF,
    VT, FF, CR, SPACE and NO-BREAK SPACE. *)
Definition isWhiteSpace (c : ascii) : bool :=
  let n := N_of_ascii c in
  ((9 <=? n) && (n <=? 13) || (n =? 32) || (n =? 160))%N.

Fixpoint trimStart (s : string) : string :=
  match s with
  | EmptyString => EmptyString
  | String c s' => if isWhiteSpace c then trimStart s' else s
  end.

Fixpoint allWhiteSpace (s : string) : bool :=
  match s with
  | EmptyString => true
  | String c s' => isWhiteSpace c && allWhiteSpace s'
  end.

(** Drops the white space at the end: a character is kept when it is not
    white space or when something that is kept follows it. *)
Fixpoint trimEnd (s : string) : string :=
  match s with
  | EmptyString => EmptyString
  | String c s' => if allWhiteSpace s then EmptyString
                   else String c (trimEnd s')
  end.

Definition trim (s : string) : string := trimEnd (trimStart s).

(** [s.startsWith(t)] *)
Definition startsWith (s t : string) : bool := String.prefix t s.

(** [s.includes(t)] *)
Fixpoint includes (s t : string) : bool :=
  String.prefix t s ||
  match s with
  | EmptyString => false
  | String _ s' => includes s' t
  end.

Fixpoint allSlashes (s : string) : bool :=
  match s with
  | EmptyString => true
  | String c s' => Ascii.eqb c slash && allSlashes s'
  end.

(** [s.replace(/\/+$/, "")]: the pattern has no [g] and no [m] flag, so
    the first match from the left is replaced and [$] is the end of the
    input.  At a position the pattern matches exactly when what is left
    of the input is a non-empty run of slashes; the match is then the
    whole rest of the input. *)
Fixpoint replaceTrailingSlashes (s : string) : string :=
  match s with
  | EmptyString => EmptyString
  | String c s' =>
      if Ascii.eqb c slash && allSlashes s' then EmptyString
      else String c (replaceTrailingSlashes s')
  end.

End JsString.

(** ** JavaScript numbers that hold a count *)

Module JsNumber.

Inductive number : Type :=
| NaN : number
| Int (z : Z) : number.

(** [a + b] *)
Definition add (a b : number) : number :=
  match a, b with
  | Int x, Int y => Int (x + y)
  | _, _ => NaN
  end.

(** [a - b] *)
Definition sub (a b : number) : number :=
  match a, b with
  | Int x, Int y => Int (x - y)
  | _, _ => NaN
  end.

(** [a >= b]: false as soon as one side is [NaN]. *)
Definition geb (a b : number) : bool :=
  match a, b with
  | Int x, Int y => (y <=? x)%Z
  | _, _ => false
  end.

(** [a < b]: false as soon as one side is [NaN]. *)
Definition ltb (a b : number) : bool :=
  match a, b with
  | Int x, Int y => (x <? y)%Z
  | _, _ => false
  end.

(** [n.toString()] *)
Definition toString (n : number) : string :=
  match n with
  | NaN => "NaN"
  | Int z => pretty z
  end.

Definition digitValue (c : ascii) : option Z :=
  let n := N_of_ascii c in
  if ((48 <=? n) && (n <=? 57))%N then Some (Z.of_N (n - 48)) else None.

(** The longest prefix of decimal digits, read as an integer; [acc] is
    [None] as long as no digit was read. *)
Fixpoint parseDigits (acc : option Z) (s : string) : option Z :=
  match s with
  | EmptyString => acc
  | String c s' =>
      match digitValue c with
      | Some d => parseDigits (Some (10 * default 0%Z acc + d)%Z) s'
      | None => acc
      end
  end.

(** [parseInt(s, 10)]: leading white space is skipped, one sign is read,
    then the longest run of digits; [NaN] when there is no digit. *)
Definition parseInt10 (s : string) : number :=
  let t := JsString.trimStart s in
  let '(sign, rest) :=
    match t with
    | String "-"%char r => ((-1)%Z, r)
    | String "+"%char r => (1%Z, r)
    | _ => (1%Z, t)
    end in
  match parseDigits None rest with
  | None => NaN
  | Some n => Int (sign * n)
  end.

End JsNumber.

(** ** The component *)

Module App.
Import JsString JsNumber.

(** [window.location]: the three properties the component reads. *)
Record Location : Type := mkLocation {
  origin : string;
  href : string;
  hostname : string
}.

Inductive Role : Type := user | ai.

(** An entry of [chatMessages]. *)
Record ChatMessage : Type := mkMessage {
  role : Role;
  text : string
}.

(** The argument of [genAI.models.generateContent]. *)
Record GenerateContentRequest : Type := mkRequest {
  model : string;
  contents : string;
  systemInstruction : option string
}.

(** How the awaited provider call settles: fulfilled with a response whose
    [text] may be missing, or rejected with an error whose [message] may
    be missing. *)
Inductive Settled : Type :=
| Fulfilled (responseText : option string)
| Rejected (message : option string).

(** [localStorage.setItem] stores the value or throws. *)
Inductive StorageWrite : Type :=
| WriteStored
| WriteThrows (message : option string).

(** The React state the gate reads or writes. *)
Record State : Type := mkState {
  title : string;
  content : string;
  isGenerating : bool;
  authorizedUrl : string;
  chatMessages : list ChatMessage;
  chatInput : string;
  isChatLoading : bool;
  messageCount : number
}.

(** The component state together with what the handlers reach in the
    browser: the storage area, the alerts shown and the errors logged. *)
Record World : Type := mkWorld {
  react : State;
  localStorage : gmap string string;
  alerts : list string;
  consoleErrors : list string
}.

Definition withReact (f : State -> State) (w : World) : World :=
  mkWorld (f (react w)) (localStorage w) (alerts w) (consoleErrors w).

Definition setContent (f : string -> string) : World -> World :=
  withReact (fun st =>
    mkState (title st) (f (content st)) (isGenerating st) (authorizedUrl st)
      (chatMessages st) (chatInput st) (isChatLoading st) (messageCount st)).

Definition setTitle (v : string) : World -> World :=
  withReact (fun st =>
    mkState v (content st) (isGenerating st) (authorizedUrl st)
      (chatMessages st) (chatInput st) (isChatLoading st) (messageCount st)).

Definition setIsGenerating (v : bool) : World -> World :=
  withReact (fun st =>
    mkState (title st) (content st) v (authorizedUrl st)
      (chatMessages st) (chatInput st) (isChatLoading st) (messageCount st)).

Definition setAuthorizedUrl (v : string) : World -> World :=
  withReact (fun st =>
    mkState (title st) (content st) (isGenerating st) v
      (chatMessages st) (chatInput st) (isChatLoading st) (messageCount st)).

(** [setChatMessages(prev => [...prev, m])] *)
Definition appendChatMessage (m : ChatMessage) : World -> World :=
  withReact (fun st =>
    mkState (title st) (content st) (isGenerating st) (authorizedUrl st)
      (chatMessages st ++ [m]) (chatInput st) (isChatLoading st)
      (messageCount st)).

Definition setChatInput (v : string) : World -> World :=
  withReact (fun st =>
    mkState (title st) (content st) (isGenerating st) (authorizedUrl st)
      (chatMessages st) v (isChatLoading st) (messageCount st)).

Definition setIsChatLoading (v : bool) : World -> World :=
  withReact (fun st =>
    mkState (title st) (content st) (isGenerating st) (authorizedUrl st)
      (chatMessages st) (chatInput st) v (messageCount st)).

Definition setMessageCount (v : number) : World -> World :=
  withReact (fun st =>
    mkState (title st) (content st) (isGenerating st) (authorizedUrl st)
      (chatMessages st) (chatInput st) (isChatLoading st) v).

(** [localStorage.setItem(k, v)] when it does not throw. *)
Definition setItem (k v : string) (w : World) : World :=
  mkWorld (react w) (<[k := v]> (localStorage w)) (alerts w) (consoleErrors w).

Definition alert (msg : string) (w : World) : World :=
  mkWorld (react w) (localStorage w) (alerts w ++ [msg]) (consoleErrors w).

Definition consoleError (msg : string) (w : World) : World :=
  mkWorld (react w) (localStorage w) (alerts w) (consoleErrors w ++ [msg]).

Definition CHAT_LIMIT : number := Int 3.

Definition STORAGE_KEY : string := "katha_chat_limit".

(** [window.location.hostname.includes("-pre-")] *)
Definition isSharedUrl (loc : Location) : bool :=
  includes (hostname loc) "-pre-".

(** [url.replace(/\/+$/, "").toLowerCase()] *)
Definition normalize (url : string) : string :=
  toLowerCase (replaceTrailingSlashes url).

Definition isUrlAuthorized (loc : Location) (authorized : string) : bool :=
  if negb (isSharedUrl loc) then true
  else if negb (truthy authorized) then false
  else
    let currentOrigin := normalize (origin loc) in
    let targetUrl := normalize authorized in
    String.eqb currentOrigin targetUrl
    || startsWith (toLowerCase (href loc)) targetUrl.

(** The lazy initializer of [messageCount]:
    [saved ? parseInt(saved, 10) : 0] with
    [saved = localStorage.getItem("katha_chat_limit")]. *)
Definition initialMessageCount (store : gmap string string) : number :=
  match store !! STORAGE_KEY with
  | Some saved => if truthy saved then parseInt10 saved else Int 0
  | None => Int 0
  end.

Definition initialState (store : gmap string string) : State :=
  mkState "" "" false "" [] "" false (initialMessageCount store).

Definition initialWorld (store : gmap string string) : World :=
  mkWorld (initialState store) store [] [].

(** [err?.message || "Connection error"] *)
Definition errorMessageOf (message : option string) : string :=
  match message with
  | Some m => if truthy m then m else "Connection error"
  | None => "Connection error"
  end.

(** The value of [response.text] when it is truthy. *)
Definition truthyText (responseText : option string) : option string :=
  match responseText with
  | Some t => if truthy t then Some t else None
  | None => None
  end.

Definition notAuthorizedText : string :=
  "This URL is not authorized for AI features. Please configure the Authorized URL in settings (Owner only).".

Definition limitReachedText : string :=
  "Limit reached. You can only send 3 messages to the Katha Assistant in the shared version.".

Definition chatFailureText (errorMessage : string) : string :=
  "Sorry, I'm having trouble connecting: " +:+ errorMessage
  +:+ ". Please try again.".

Definition assistFailureText (errorMessage : string) : string :=
  "Failed to generate AI suggestion: " +:+ errorMessage
  +:+ ". Please try again.".

Definition chatRequest (userMessage : string) : GenerateContentRequest :=
  mkRequest "gemini-flash-latest" userMessage
    (Some "You are a helpful assistant for a story writing app called Katha. Keep your answers brief and helpful.").

Definition LF : string := String (ascii_of_N 10) EmptyString.

Definition DQUOTE : string := String (ascii_of_N 34) EmptyString.

Definition assistRequest (t c : string) : GenerateContentRequest :=
  mkRequest "gemini-flash-latest"
    ("I am writing a story titled " +:+ DQUOTE +:+ t +:+ DQUOTE
     +:+ ". Here is what I have so far: " +:+ DQUOTE +:+ c +:+ DQUOTE
     +:+ ". Can you help me expand this story or give me some creative ideas to continue? Please provide the response in a short, inspiring way.")
    None.

Definition suggestionSeparator : string :=
  LF +:+ LF +:+ "---" +:+ LF +:+ "*AI Suggestion:*" +:+ LF.

(** *** The [try] / [catch] / [finally] of the two async handlers *)

(** How a [try] block ends: normally, or by a throw that carries the
    [message] of the error.  State updates made before the throw stay. *)
Inductive Completion : Type :=
| Normal (w : World)
| Throw (w : World) (message : option string).

(** What the closure of one run of [handleSendMessage] holds when it
    resumes after the [await]: [userMessage] and the [messageCount] of the
    render in which the form was submitted. *)
Record ChatCall : Type := mkChatCall {
  userMessage : string;
  countAtSubmit : number
}.

(** [handleSendMessage] up to the [await]: the new world and, when the
    provider is called, the closure of the call.  The request sent is
    [chatRequest (userMessage call)]. *)
Definition handleSendMessage_begin (loc : Location) (w : World)
  : World * option ChatCall :=
  let st := react w in
  if negb (truthy (trim (chatInput st))) then (w, None)
  else if negb (isUrlAuthorized loc (authorizedUrl st)) then
    (setChatInput "" (appendChatMessage (mkMessage ai notAuthorizedText) w),
     None)
  else if isSharedUrl loc && geb (messageCount st) CHAT_LIMIT then
    (setChatInput "" (appendChatMessage (mkMessage ai limitReachedText) w),
     None)
  else
    let msg := chatInput st in
    (setIsChatLoading true
       (setChatInput "" (appendChatMessage (mkMessage user msg) w)),
     Some (mkChatCall msg (messageCount st))).

(** The rest of the [try] block, once the call has settled. *)
Definition handleSendMessage_try (loc : Location) (call : ChatCall)
  (r : Settled) (wr : StorageWrite) (w : World) : Completion :=
  match r with
  | Rejected m => Throw w m
  | Fulfilled responseText =>
      match truthyText responseText with
      | None => Normal w
      | Some aiText =>
          let w1 := appendChatMessage (mkMessage ai aiText) w in
          if isSharedUrl loc then
            let newCount := add (countAtSubmit call) (Int 1) in
            let w2 := setMessageCount newCount w1 in
            match wr with
            | WriteStored =>
                Normal (setItem STORAGE_KEY (toString newCount) w2)
            | WriteThrows m => Throw w2 m
            end
          else Normal w1
      end
  end.

Definition handleSendMessage_catch (c : Completion) : World :=
  match c with
  | Normal w => w
  | Throw w m =>
      appendChatMessage (mkMessage ai (chatFailureText (errorMessageOf m)))
        (consoleError "Chat failed" w)
  end.

(** [handleSendMessage] from the [await] on; [finally] clears the flag. *)
Definition handleSendMessage_settle (loc : Location) (call : ChatCall)
  (r : Settled) (wr : StorageWrite) (w : World) : World :=
  setIsChatLoading false
    (handleSendMessage_catch (handleSendMessage_try loc call r wr w)).

(** [generateAIAssistance] up to the [await]. *)
Definition generateAIAssistance_begin (loc : Location) (w : World)
  : World * option GenerateContentRequest :=
  let st := react w in
  if negb (truthy (title st)) && negb (truthy (content st)) then (w, None)
  else if negb (isUrlAuthorized loc (authorizedUrl st)) then
    (alert notAuthorizedText w, None)
  else
    (setIsGenerating true w, Some (assistRequest (title st) (content st))).

Definition generateAIAssistance_try (r : Settled) (w : World) : Completion :=
  match r with
  | Rejected m => Throw w m
  | Fulfilled responseText =>
      match truthyText responseText with
      | None => Normal w
      | Some aiText =>
          Normal (setContent
                    (fun prev => prev +:+ suggestionSeparator +:+ aiText) w)
      end
  end.

Definition generateAIAssistance_catch (c : Completion) : World :=
  match c with
  | Normal w => w
  | Throw w m =>
      alert (assistFailureText (errorMessageOf m))
        (consoleError "AI Generation failed" w)
  end.

Definition generateAIAssistance_settle (r : Settled) (w : World) : World :=
  setIsGenerating false
    (generateAIAssistance_catch (generateAIAssistance_try r w)).

(** *** What the rendered form allows *)

(** The [disabled] attribute of the chat submit button. *)
Definition chatSubmitDisabled (loc : Location) (st : State) : bool :=
  isChatLoading st
  || negb (truthy (trim (chatInput st)))
  || (isSharedUrl loc && geb (messageCount st) CHAT_LIMIT).

(** The [disabled] attribute of the chat input. *)
Definition chatInputDisabled (loc : Location) (st : State) : bool :=
  isSharedUrl loc && geb (messageCount st) CHAT_LIMIT.

(** The [disabled] attribute of the "Get AI Help" button. *)
Definition assistDisabled (st : State) : bool :=
  isGenerating st || (negb (truthy (title st)) && negb (truthy (content st))).

(** The number in "Shared version: N messages remaining", when that line
    is rendered. *)
Definition remainingShown (loc : Location) (st : State) : option number :=
  if isSharedUrl loc && ltb (messageCount st) CHAT_LIMIT
  then Some (sub CHAT_LIMIT (messageCount st))
  else None.

(** *** The page as a transition system *)

(** The page: the world, the provider calls that have not settled yet,
    and every request sent to the provider so far. *)
Record System : Type := mkSystem {
  world : World;
  chatCalls : list ChatCall;
  assistCalls : list GenerateContentRequest;
  sent : list GenerateContentRequest
}.

(** What can happen to the page.  A form whose submit button is disabled
    is not submitted, and a disabled control takes no input: such an event
    leaves the page as it is.  The settings events stand for
    [fetchSettings] and for a successful [handleSaveSettings]; the saved
    value is whatever the settings field holds. *)
Inductive Event : Type :=
| ChangeChatInput (v : string)
| SubmitChat
| ChatSettles (i : nat) (r : Settled) (wr : StorageWrite)
| ChangeTitle (v : string)
| ChangeContent (v : string)
| ClickAssist
| AssistSettles (i : nat) (r : Settled)
| SettingsFetched (authorized_url : option string)
| SettingsSaved (url : string).

Definition onWorld (f : World -> World) (s : System) : System :=
  mkSystem (f (world s)) (chatCalls s) (assistCalls s) (sent s).

Definition step (loc : Location) (e : Event) (s : System) : System :=
  match e with
  | ChangeChatInput v =>
      if chatInputDisabled loc (react (world s)) then s
      else onWorld (setChatInput v) s
  | SubmitChat =>
      if chatSubmitDisabled loc (react (world s)) then s
      else
        match handleSendMessage_begin loc (world s) with
        | (w, Some call) =>
            mkSystem w (chatCalls s ++ [call]) (assistCalls s)
              (sent s ++ [chatRequest (userMessage call)])
        | (w, None) => onWorld (fun _ => w) s
        end
  | ChatSettles i r wr =>
      match chatCalls s !! i with
      | Some call =>
          mkSystem (handleSendMessage_settle loc call r wr (world s))
            (delete i (chatCalls s)) (assistCalls s) (sent s)
      | None => s
      end
  | ChangeTitle v => onWorld (setTitle v) s
  | ChangeContent v => onWorld (setContent (fun _ => v)) s
  | ClickAssist =>
      if assistDisabled (react (world s)) then s
      else
        match generateAIAssistance_begin loc (world s) with
        | (w, Some req) =>
            mkSystem w (chatCalls s) (assistCalls s ++ [req])
              (sent s ++ [req])
        | (w, None) => onWorld (fun _ => w) s
        end
  | AssistSettles i r =>
      match assistCalls s !! i with
      | Some _ =>
          mkSystem (generateAIAssistance_settle r (world s))
            (chatCalls s) (delete i (assistCalls s)) (sent s)
      | None => s
      end
  | SettingsFetched (Some url) =>
      if truthy url then onWorld (setAuthorizedUrl url) s else s
  | SettingsFetched None => s
  | SettingsSaved url =>
      onWorld (fun w => alert "Settings updated successfully!"
                          (setAuthorizedUrl url w)) s
  end.

Fixpoint run (loc : Location) (es : list Event) (s : System) : System :=
  match es with
  | [] => s
  | e :: es' => run loc es' (step loc e s)
  end.

(** The page after mount, over the storage area it finds. *)
Definition initialSystem (store : gmap string string) : System :=
  mkSystem (initialWorld store) [] [] [].

End App.

(** ** The contract of the design document, in its own words

    These definitions follow the text of the design (sections 4.1 and
    4.2), not the code; the theorems below compare the two. *)

Module Spec.

Fixpoint dropLeadingSlashes (l : list ascii) : list ascii :=
  match l with
  | [] => []
  | c :: l' => if Ascii.eqb c JsString.slash then dropLeadingSlashes l' else l
  end.

(** "stripping all trailing [/] characters": the slashes at the end are
    the slashes at the head of the reversed text. *)
Definition stripTrailingSlashes (s : string) : string :=
  string_of_list_ascii
    (rev (dropLeadingSlashes (rev (list_ascii_of_string s)))).

(** "stripping all trailing [/] characters, lower-casing" *)
Definition normalized (s : string) : string :=
  JsString.toLowerCase (stripTrailingSlashes s).

(** "limit: positive integer constant = 3" *)
Definition limit : Z := 3.

(** "remaining(quota) -> max(0, limit - count)" *)
Definition remaining (count : Z) : Z := Z.max 0 (limit - count).

(** "isExhausted(quota) -> count >= limit" *)
Definition isExhausted (count : Z) : bool := (limit <=? count)%Z.

End Spec.

(** ** Notions used to state the properties *)

Module Props.
Import JsString JsNumber App.

(** The count the page holds. *)
Definition countOf (s : System) : number := messageCount (react (world s)).

(** The transcript the page holds. *)
Definition transcriptOf (s : System) : list ChatMessage :=
  chatMessages (react (world s)).

(** The limit test of the code, [messageCount >= CHAT_LIMIT]. *)
Definition limitReached (s : System) : bool := geb (countOf s) CHAT_LIMIT.

(** An event that consumes quota: a chat call that is outstanding settles
    with a non-empty text while the page runs on the shared URL. *)
Definition consumesQuota (loc : Location) (e : Event) (s : System) : bool :=
  match e with
  | ChatSettles i (Fulfilled responseText) _ =>
      isSharedUrl loc
      && bool_decide (is_Some (chatCalls s !! i))
      && bool_decide (is_Some (truthyText responseText))
  | _ => false
  end.

(** The number of events of a run that consume quota. *)
Fixpoint consumed (loc : Location) (es : list Event) (s : System) : nat :=
  match es with
  | [] => 0
  | e :: es' =>
      (if consumesQuota loc e s then 1 else 0)
      + consumed loc es' (step loc e s)
  end.

(** What holds of every page reached from mount: no chat call is
    outstanding and the loading flag is down, or exactly one is, the flag
    is up, the count has not moved since the call was sent and, on the
    shared URL, that count was below the limit. *)
Definition Inv (loc : Location) (s : System) : Prop :=
  (chatCalls s = [] /\ isChatLoading (react (world s)) = false)
  \/ (exists call,
        chatCalls s = [call]
        /\ isChatLoading (react (world s)) = true
        /\ countAtSubmit call = countOf s
        /\ (isSharedUrl loc = true -> geb (countOf s) CHAT_LIMIT = false)).

(** The world with another count and another storage area. *)
Definition withQuota (c : number) (store : gmap string string) (w : World)
  : World :=
  mkWorld (react (setMessageCount c w)) store (alerts w) (consoleErrors w).

(** The page after a reload: mounted anew over the storage area as the
    page [s] leaves it.  The calls [s] was waiting for belong to the page
    that is gone and never settle in the new one. *)
Definition remount (s : System) : System :=
  initialSystem (localStorage (world s)).

(** An event that stores the count: one that consumes quota and whose
    write goes through. *)
Definition storesCount (loc : Location) (e : Event) (s : System) : bool :=
  consumesQuota loc e s
  && match e with
     | ChatSettles _ _ WriteStored => true
     | _ => false
     end.

(** The counts on which the integers of the model and the doubles of
    the code agree: [NaN], and the integers up to 2^52 in size.  For
    such a count [count + 1], [CHAT_LIMIT - count], the decimal text
    [toString] writes and what [parseInt] reads from it are integers
    below 2^53 in size, which a double holds exactly. *)
Definition Exact (n : number) : Prop :=
  match n with
  | NaN => True
  | Int z => (- 2 ^ 52 <= z <= 2 ^ 52)%Z
  end.

(** The page over another storage area. *)
Definition setStore (store : gmap string string) (s : System) : System :=
  mkSystem
    (mkWorld (react (world s)) store (alerts (world s))
       (consoleErrors (world s)))
    (chatCalls s) (assistCalls s) (sent s).

(** A page on the shared (preview) host and one on the developer's. *)
Definition sharedLocation : Location :=
  mkLocation "https://katha-pre-demo.run.app"
    "https://katha-pre-demo.run.app/" "katha-pre-demo.run.app".

Definition ownerLocation : Location :=
  mkLocation "http://localhost:3000" "http://localhost:3000/" "localhost".

(** A chat window with [input] typed, [count] messages used and
    [authorized] configured. *)
Definition chatWorld (authorized input : string) (count : number) : World :=
  mkWorld (mkState "" "" false authorized [] input false count) ∅ [] [].

(** The settings arrive with the page's own origin as authorized URL. *)
Definition authorizeOrigin (loc : Location) : Event :=
  SettingsFetched (Some (origin loc)).

(** One full chat turn answered with [answer]. *)
Definition turn (question answer : string) : list Event :=
  [ChangeChatInput question; SubmitChat;
   ChatSettles 0 (Fulfilled (Some answer)) WriteStored].

End Props.

(** ** Several pages over one storage area

    [localStorage] belongs to the origin, not to the page: every tab of
    the site reads the entry when it mounts (lines 180-183) and writes it
    when one of its answers is counted (lines 226-230), each with the
    count of its own React state.  A handler runs to its next [await]
    without interruption, so the tabs interleave event by event. *)

Module Tabs.
Import JsNumber App Props.

(** One tab: where it is, the page as it stands, and for stating
    properties the storage area it was mounted on and the events it has
    taken since. *)
Record Tab : Type := mkTab {
  address : Location;
  page : System;
  mountedOn : gmap string string;
  history : list Event
}.

(** The storage area of the origin and the tabs open on it. *)
Record Browser : Type := mkBrowser {
  shared : gmap string string;
  tabs : list Tab
}.

(** What can happen: a tab is opened, tab [i] is reloaded, tab [i] takes
    an event, or the storage area is changed from outside the pages (the
    user clears the site data or edits the entry). *)
Inductive Move : Type :=
  | Open (loc : Location)
  | Reload (i : nat)
  | On (i : nat) (e : Event)
  | Edit (store : gmap string string).

(** A page mounts: the initializer of [messageCount] reads the area. *)
Definition mount (loc : Location) (store : gmap string string) : Tab :=
  mkTab loc (initialSystem store) store [].

(** An event of a tab runs over the storage area as it is now and leaves
    it to all tabs; the React state of the other tabs is not touched. *)
Definition move (m : Move) (b : Browser) : Browser :=
  match m with
  | Open loc => mkBrowser (shared b) (tabs b ++ [mount loc (shared b)])
  | Reload i =>
      match tabs b !! i with
      | Some t =>
          mkBrowser (shared b) (<[i := mount (address t) (shared b)]> (tabs b))
      | None => b
      end
  | On i e =>
      match tabs b !! i with
      | Some t =>
          let s' := step (address t) e (setStore (shared b) (page t)) in
          mkBrowser (localStorage (world s'))
            (<[i := mkTab (address t) s' (mountedOn t) (history t ++ [e])]>
               (tabs b))
      | None => b
      end
  | Edit store => mkBrowser store (tabs b)
  end.

Fixpoint play (ms : list Move) (b : Browser) : Browser :=
  match ms with
  | [] => b
  | m :: ms' => play ms' (move m b)
  end.

(** No tab is open yet. *)
Definition start (store : gmap string string) : Browser := mkBrowser store [].

(** One full chat turn on tab [i]. *)
Definition turnOn (i : nat) (question answer : string) : list Move :=
  map (On i) (turn question answer).

(** Every tab is, up to the storage area, where its events have taken it
    from its mount. *)
Definition Traced (b : Browser) : Prop :=
  forall i t,
    tabs b !! i = Some t ->
    setStore ∅ (page t)
    = setStore ∅ (run (address t) (history t) (initialSystem (mountedOn t))).

End Tabs.

(** ** The server ([server.ts]) *)

Module Server.

(** A row of the [stories] table, which is also what the routes answer
    with and the [Story] interface of the client.  Integers are not
    bounded and the text columns hold text, as the rows written by the
    routes do. *)
Record Story : Type := mkStory {
  id : Z;
  title : string;
  content : string;
  author : string;
  likes : Z;
  created_at : string
}.

(** The database file: the [settings] table, keyed by its primary key,
    the rows of [stories] in the order they were inserted, and the value
    SQLite keeps for the AUTOINCREMENT key of [stories], the largest row
    id ever used. *)
Record Database : Type := mkDatabase {
  settings : gmap string string;
  stories : list Story;
  sequence : Z
}.

(** A database file that does not exist yet, once its tables are
    created. *)
Definition emptyDatabase : Database := mkDatabase ∅ [] 0.

(** The script of [db.exec]: the tables are created when they are not
    there, and [INSERT OR IGNORE] adds the row ['authorized_url', ''] only
    when the key has no row. *)
Definition initialize (db : Database) : Database :=
  match settings db !! "authorized_url" with
  | Some _ => db
  | None =>
      mkDatabase (<["authorized_url" := ""]> (settings db)) (stories db)
        (sequence db)
  end.

(** [GET /api/settings]: the rows are folded into an object with
    [acc[curr.key] = curr.value].  Every key becomes a property of the
    object but ["__proto__"], for which the assignment of a text is
    ignored. *)
Definition getSettings (db : Database) : gmap string string :=
  delete "__proto__" (settings db).

(** [POST /api/settings] with the text [authorized_url] in the body:
    [INSERT OR REPLACE] under the key ['authorized_url']. *)
Definition postSettings (authorized_url : string) (db : Database)
  : Database :=
  mkDatabase (<["authorized_url" := authorized_url]> (settings db))
    (stories db) (sequence db).

(** The body of [POST /api/stories] as the component sends it: each
    field is a text or is missing.  Bodies with fields that are other
    JSON values (numbers, booleans, null) are not covered. *)
Record StoryBody : Type := mkStoryBody {
  body_title : option string;
  body_content : option string;
  body_author : option string
}.

(** [!field] is false: the field is there and is not empty. *)
Definition present (field : option string) : bool :=
  match field with
  | Some s => JsString.truthy s
  | None => false
  end.

Inductive PostStoryResponse : Type :=
| Created (story : Story)
| MissingFields.

Fixpoint maxId (rows : list Story) : Z :=
  match rows with
  | [] => 0
  | r :: rows' => Z.max (id r) (maxId rows')
  end.

(** The key an AUTOINCREMENT insert takes: one more than the largest row
    id ever used. *)
Definition nextId (db : Database) : Z :=
  Z.max (sequence db) (maxId (stories db)) + 1.

(** [POST /api/stories] at the time [now] (the text of
    [CURRENT_TIMESTAMP]): status 400 with "Missing fields" when a field
    is missing or empty; otherwise the row is inserted with the defaults
    of the table and read back by its key. *)
Definition postStory (now : string) (body : StoryBody) (db : Database)
  : Database * PostStoryResponse :=
  match body_title body, body_content body, body_author body with
  | Some t, Some c, Some a =>
      if JsString.truthy t && JsString.truthy c && JsString.truthy a then
        let story := mkStory (nextId db) t c a 0 now in
        (mkDatabase (settings db) (stories db ++ [story]) (nextId db),
         Created story)
      else (db, MissingFields)
  | _, _, _ => (db, MissingFields)
  end.

Definition addLike (target : Z) (r : Story) : Story :=
  if (id r =? target)%Z
  then mkStory (id r) (title r) (content r) (author r) (likes r + 1)
         (created_at r)
  else r.

Fixpoint selectById (target : Z) (rows : list Story) : option Story :=
  match rows with
  | [] => None
  | r :: rows' => if (id r =? target)%Z then Some r else selectById target rows'
  end.

(** [POST /api/stories/:id/like], for the row id the path names: the
    [UPDATE] adds one to [likes] where the id matches, and the answer is
    the row read back, or has no body when there is none. *)
Definition likeStory (target : Z) (db : Database)
  : Database * option Story :=
  let rows := map (addLike target) (stories db) in
  (mkDatabase (settings db) rows (sequence db), selectById target rows).

(** [ORDER BY created_at DESC]: a row comes before the rows whose
    [created_at] is not larger, as texts compared byte by byte. *)
Definition newerFirst (a b : Story) : Prop :=
  String.le (created_at b) (created_at a).

(** What [GET /api/stories] may answer: all the rows, newest first.  The
    order among rows of the same [created_at] is left to SQLite. *)
Definition Listing (db : Database) (l : list Story) : Prop :=
  l ≡ₚ stories db /\ Sorted newerFirst l.

(** One such answer. *)
Definition listStories (db : Database) : list Story :=
  merge_sort newerFirst (stories db).

(** The requests that write. *)
Inductive Request : Type :=
| PostSettings (authorized_url : string)
| PostStory (now : string) (body : StoryBody)
| LikeStory (target : Z).

Definition serve (r : Request) (db : Database) : Database :=
  match r with
  | PostSettings u => postSettings u db
  | PostStory now body => fst (postStory now body db)
  | LikeStory target => fst (likeStory target db)
  end.

Fixpoint serveAll (rs : list Request) (db : Database) : Database :=
  match rs with
  | [] => db
  | r :: rs' => serveAll rs' (serve r db)
  end.

(** The number of like requests for [target] among [rs]. *)
Fixpoint likesFor (target : Z) (rs : list Request) : Z :=
  match rs with
  | [] => 0
  | LikeStory t :: rs' =>
      (if (t =? target)%Z then 1 else 0) + likesFor target rs'
  | _ :: rs' => likesFor target rs'
  end.

(** No two rows have the same id, as the primary key demands. *)
Definition uniqueIds (db : Database) : Prop :=
  NoDup (map id (stories db)).

End Server.

(** ** The rest of the component: the feed, the editor, the settings *)

Module Feed.
Import JsString App.

(** The component state beyond the one the gate uses. *)
Record Page : Type := mkPage {
  gate : World;
  stories : list Server.Story;
  isWriting : bool;
  author : string;
  isSubmitting : bool;
  isLoading : bool;
  isSettingsOpen : bool;
  tempUrl : string
}.

Definition initialPage (store : gmap string string) : Page :=
  mkPage (initialWorld store) [] false "" false true false "".

Definition onGate (f : World -> World) (p : Page) : Page :=
  mkPage (f (gate p)) (stories p) (isWriting p) (author p) (isSubmitting p)
    (isLoading p) (isSettingsOpen p) (tempUrl p).

Definition setStories (v : list Server.Story) (p : Page) : Page :=
  mkPage (gate p) v (isWriting p) (author p) (isSubmitting p) (isLoading p)
    (isSettingsOpen p) (tempUrl p).

Definition setIsWriting (v : bool) (p : Page) : Page :=
  mkPage (gate p) (stories p) v (author p) (isSubmitting p) (isLoading p)
    (isSettingsOpen p) (tempUrl p).

Definition setIsSubmitting (v : bool) (p : Page) : Page :=
  mkPage (gate p) (stories p) (isWriting p) (author p) v (isLoading p)
    (isSettingsOpen p) (tempUrl p).

Definition setIsLoading (v : bool) (p : Page) : Page :=
  mkPage (gate p) (stories p) (isWriting p) (author p) (isSubmitting p) v
    (isSettingsOpen p) (tempUrl p).

Definition setIsSettingsOpen (v : bool) (p : Page) : Page :=
  mkPage (gate p) (stories p) (isWriting p) (author p) (isSubmitting p)
    (isLoading p) v (tempUrl p).

Definition setTempUrl (v : string) (p : Page) : Page :=
  mkPage (gate p) (stories p) (isWriting p) (author p) (isSubmitting p)
    (isLoading p) (isSettingsOpen p) v.

(** How [fetch] followed by [res.json()] ends: a response came, with its
    [ok] flag and a body that parses or does not, or [fetch] rejected. *)
Inductive Fetched (A : Type) : Type :=
| Answered (ok : bool) (json : option A)
| NetworkError.

Arguments Answered {A} ok json.
Arguments NetworkError {A}.

(** [fetchSettings] once the request has settled.  The body is read
    whatever the status is. *)
Definition fetchSettings_settle (r : Fetched (gmap string string))
  (p : Page) : Page :=
  match r with
  | Answered _ (Some data) =>
      match data !! "authorized_url" with
      | Some url =>
          if truthy url
          then setTempUrl url (onGate (setAuthorizedUrl url) p)
          else p
      | None => p
      end
  | _ => onGate (consoleError "Failed to fetch settings") p
  end.


(** [handleSaveSettings] once the request has settled; [saved] is the
    [tempUrl] its closure holds.  The body is not read. *)
Definition handleSaveSettings_settle {A} (saved : string) (r : Fetched A)
  (p : Page) : Page :=
  match r with
  | Answered true _ =>
      onGate (alert "Settings updated successfully!")
        (setIsSettingsOpen false (onGate (setAuthorizedUrl saved) p))
  | Answered false _ => p
  | NetworkError => onGate (consoleError "Failed to save settings") p
  end.

(** [fetchStories] once the request has settled. *)
Definition fetchStories_settle (r : Fetched (list Server.Story)) (p : Page)
  : Page :=
  setIsLoading false
    match r with
    | Answered _ (Some data) => setStories data p
    | _ => onGate (consoleError "Failed to fetch stories") p
    end.


(** [handlePost] once the request has settled: the new page, and whether
    [fetchStories] is called. *)
Definition handlePost_settle {A} (r : Fetched A) (p : Page) : Page * bool :=
  match r with
  | Answered true _ =>
      (setIsSubmitting false
         (setIsWriting false
            (onGate (fun w => setContent (fun _ => "") (setTitle "" w)) p)),
       true)
  | Answered false _ => (setIsSubmitting false p, false)
  | NetworkError =>
      (setIsSubmitting false
         (onGate (consoleError "Failed to post story") p), false)
  end.

(** What the closure of one run of [handleLike] holds: the id and the
    [stories] of the render in which the heart was clicked. *)
Record LikeCall : Type := mkLikeCall {
  likedId : Z;
  storiesAtClick : list Server.Story
}.

Definition handleLike_begin (target : Z) (p : Page) : LikeCall :=
  mkLikeCall target (stories p).

(** [stories.map(s => s.id === id ? updatedStory : s)] *)
Definition replaceStory (target : Z) (updated : Server.Story)
  (l : list Server.Story) : list Server.Story :=
  map (fun s => if (Server.id s =? target)%Z then updated else s) l.

(** [handleLike] once the request has settled. *)
Definition handleLike_settle (call : LikeCall) (r : Fetched Server.Story)
  (p : Page) : Page :=
  match r with
  | Answered true (Some updatedStory) =>
      setStories
        (replaceStory (likedId call) updatedStory (storiesAtClick call)) p
  | Answered true None | NetworkError =>
      onGate (consoleError "Failed to like story") p
  | Answered false _ => p
  end.

End Feed.

(** ** The component talking to the server

    A request of the component answered by the routes above: the route
    runs on the database and its answer is what the handler is resumed
    with. *)

Module Site.
Import JsString App Feed.




End Site.

(** ** Further notions used to state properties *)

Module More.
Import JsString JsNumber App Props.

(** An event that hands the page a non-empty authorized URL. *)
Definition bringsAuthorizedUrl (e : Event) : bool :=
  match e with
  | SettingsFetched (Some url) => truthy url
  | SettingsSaved url => truthy url
  | _ => false
  end.

(** The requests of the chat carry a system instruction, those of the
    story helper do not. *)
Definition isChatRequest (req : GenerateContentRequest) : bool :=
  match systemInstruction req with
  | Some _ => true
  | None => false
  end.

Definition isUserMessage (m : ChatMessage) : bool :=
  match role m with
  | user => true
  | ai => false
  end.

(** The questions the transcript shows, and the questions sent. *)
Definition questionsShown (s : System) : list string :=
  map text (List.filter isUserMessage (transcriptOf s)).

Definition questionsSent (s : System) : list string :=
  map contents (List.filter isChatRequest (sent s)).

End More.

(** ** What the chat form shows under the input *)

Module Notices.
Import JsString JsNumber App.

(** "Limit reached for shared version (3/3 messages)" *)
Definition limitNoticeShown (loc : Location) (st : State) : bool :=
  isSharedUrl loc && geb (messageCount st) CHAT_LIMIT.

(** "Owner Mode: Unlimited messages" *)
Definition ownerNoticeShown (loc : Location) : bool :=
  negb (isSharedUrl loc).

(** The placeholder of the chat input. *)
Definition chatPlaceholder (loc : Location) (st : State) : string :=
  if isSharedUrl loc && geb (messageCount st) CHAT_LIMIT
  then "Limit reached" else "Ask anything...".

End Notices.

(** * Properties *)

(** ** Strings *)

Section StringFacts.
Import JsString.

Example trim_spaces : trim "  hello  " = "hello".
Proof. reflexivity. Qed.

Example trim_blank : trim "   " = "".
Proof. reflexivity. Qed.

Example toLowerCase_host : toLowerCase "HTTPS://App.Example.COM" = "https://app.example.com".
Proof. reflexivity. Qed.

Example replaceTrailingSlashes_run : replaceTrailingSlashes "https://a/b///" = "https://a/b".
Proof. reflexivity. Qed.

Example replaceTrailingSlashes_inner : replaceTrailingSlashes "a//b" = "a//b".
Proof. reflexivity. Qed.

Example includes_marker : includes "katha-pre-demo.run.app" "-pre-" = true.
Proof. reflexivity. Qed.

Example parseInt10_plain : JsNumber.parseInt10 "2" = JsNumber.Int 2.
Proof. reflexivity. Qed.

Example parseInt10_prefix :
  JsNumber.parseInt10 "  -12px" = JsNumber.Int (-12).
Proof. reflexivity. Qed.

Example parseInt10_letters : JsNumber.parseInt10 "abc" = JsNumber.NaN.
Proof. reflexivity. Qed.

Example toString_count : JsNumber.toString (JsNumber.Int 3) = "3".
Proof. reflexivity. Qed.

Lemma truthy_true_iff (s : string) : truthy s = true <-> s <> "".
Proof. destruct s; simpl; split; congruence. Qed.

Lemma truthy_false_iff (s : string) : truthy s = false <-> s = "".
Proof. destruct s; simpl; split; congruence. Qed.

Lemma startsWith_iff (s t : string) :
  startsWith s t = true <-> exists rest, s = t +:+ rest.
Proof.
  unfold startsWith. revert s.
  induction t as [|c t IH]; intros s; simpl.
  - split; [intros _; exists s; reflexivity | now destruct s].
  - destruct s as [|d s]; simpl.
    + split; [discriminate | intros [rest H]; discriminate].
    + destruct (ascii_dec c d) as [->|Hne].
      * rewrite IH. split; intros [rest H]; exists rest.
        -- rewrite H. reflexivity.
        -- change (String d s = String d (t +:+ rest)) in H. congruence.
      * split; [discriminate | intros [rest H]].
        change (String d s = String c (t +:+ rest)) in H. congruence.
Qed.

Lemma includes_prefix (s t : string) :
  String.prefix t s = true -> includes s t = true.
Proof. intros H. destruct s; simpl in *; rewrite H; reflexivity. Qed.

Lemma includes_app_l (a s t : string) :
  includes s t = true -> includes (a +:+ s) t = true.
Proof.
  intros H. induction a as [|c a IH]; simpl; [exact H|].
  rewrite IH. apply orb_true_r.
Qed.

Lemma includes_middle (a d b : string) : includes (a +:+ d +:+ b) d = true.
Proof.
  apply includes_app_l, includes_prefix.
  apply (proj2 (startsWith_iff (d +:+ b) d)). exists b; reflexivity.
Qed.

Lemma allSlashes_forallb (s : string) :
  allSlashes s
  = forallb (fun c => Ascii.eqb c slash) (list_ascii_of_string s).
Proof. induction s as [|c s IH]; simpl; [reflexivity | now rewrite IH]. Qed.

Lemma allSlashes_replace (s : string) :
  allSlashes s = true -> replaceTrailingSlashes s = "".
Proof.
  destruct s as [|c s]; simpl; [reflexivity|].
  intros H. now rewrite H.
Qed.

Lemma dropLeadingSlashes_app (a b : list ascii) :
  Spec.dropLeadingSlashes (a ++ b)
  = if forallb (fun c => Ascii.eqb c slash) a
    then Spec.dropLeadingSlashes b
    else (Spec.dropLeadingSlashes a ++ b)%list.
Proof.
  induction a as [|c a IH]; simpl; [reflexivity|].
  destruct (Ascii.eqb c slash); simpl; [exact IH | reflexivity].
Qed.

Lemma forallb_rev {A} (p : A -> bool) (l : list A) :
  forallb p (rev l) = forallb p l.
Proof.
  induction l as [|x l IH]; simpl; [reflexivity|].
  rewrite forallb_app, IH. simpl. rewrite andb_true_r. apply andb_comm.
Qed.

(** The regular-expression replacement of the code strips exactly the
    trailing slashes the design speaks of. *)
Lemma replaceTrailingSlashes_spec (s : string) :
  replaceTrailingSlashes s = Spec.stripTrailingSlashes s.
Proof.
  unfold Spec.stripTrailingSlashes.
  induction s as [|c s IH]; [reflexivity|].
  cbn [replaceTrailingSlashes list_ascii_of_string rev].
  rewrite dropLeadingSlashes_app, forallb_rev, <- allSlashes_forallb.
  destruct (allSlashes s) eqn:Hall.
  - rewrite andb_true_r. simpl.
    destruct (Ascii.eqb c slash); [reflexivity|].
    simpl. now rewrite allSlashes_replace.
  - rewrite andb_false_r, rev_app_distr. simpl. now rewrite IH.
Qed.

Lemma normalize_spec (s : string) : App.normalize s = Spec.normalized s.
Proof.
  unfold App.normalize, Spec.normalized.
  now rewrite replaceTrailingSlashes_spec.
Qed.

(** What is stripped is a run of slashes, and what is left does not end
    in a slash. *)
Lemma replaceTrailingSlashes_decompose (s : string) :
  exists run,
    s = replaceTrailingSlashes s +:+ run
    /\ allSlashes run = true
    /\ forall r, replaceTrailingSlashes s <> r +:+ "/".
Proof.
  induction s as [|c s (run & Hs & Hrun & Hend)]; simpl.
  - exists "". repeat split. intros [|? r]; discriminate.
  - destruct (Ascii.eqb c slash && allSlashes s) eqn:Hc.
    + exists (String c s). repeat split.
      * simpl. exact Hc.
      * intros [|? r]; discriminate.
    + exists run. repeat split.
      * change (String c s = String c (replaceTrailingSlashes s +:+ run)).
        congruence.
      * exact Hrun.
      * intros [|d r] Heq.
        -- change (String c (replaceTrailingSlashes s) = String slash "") in Heq.
           injection Heq as -> Hnil.
           rewrite Ascii.eqb_refl in Hc. simpl in Hc.
           rewrite Hnil in Hs. change (s = run) in Hs. congruence.
        -- change (String c (replaceTrailingSlashes s) = String d (r +:+ "/")) in Heq.
           injection Heq as _ Heq. exact (Hend r Heq).
Qed.

End StringFacts.

(** ** Numbers written and read back *)

Section RoundTrip.
Import JsString JsNumber App Props.

Lemma digitValue_pretty (d : N) :
  (d < 10)%N -> digitValue (pretty_N_char d) = Some (Z.of_N d).
Proof.
  intros Hd.
  assert (d = 0 \/ d = 1 \/ d = 2 \/ d = 3 \/ d = 4 \/ d = 5 \/ d = 6
          \/ d = 7 \/ d = 8 \/ d = 9)%N as H by lia.
  repeat (destruct H as [->|H]; [reflexivity|]). now subst.
Qed.

Lemma isWhiteSpace_pretty (d : N) : isWhiteSpace (pretty_N_char d) = false.
Proof. unfold pretty_N_char. now repeat case_match. Qed.

(** The digits of a positive number are read back as that number, after
    whatever was read before them. *)
Lemma parseDigits_pretty_go (x : N) :
  (0 < x)%N ->
  exists p : Z,
    forall acc s,
      parseDigits acc (pretty_N_go x s)
      = parseDigits (Some (default 0 acc * p + Z.of_N x))%Z s.
Proof.
  induction (N.lt_wf_0 x) as [x _ IH]. intros Hx.
  assert (x `mod` 10 < 10)%N as Hmod by (apply N.mod_lt; lia).
  assert (x = 10 * (x `div` 10) + x `mod` 10)%N as Hdiv
    by (apply N.div_mod; lia).
  destruct (decide (x `div` 10 = 0)%N) as [Hsmall|Hbig].
  - exists 10%Z. intros acc s.
    rewrite pretty_N_go_step, Hsmall, pretty_N_go_0 by exact Hx.
    simpl. rewrite (digitValue_pretty _ Hmod). do 2 f_equal. lia.
  - destruct (IH (x `div` 10)%N) as [p Hp].
    { apply N.div_lt; lia. }
    { now apply N.neq_0_lt_0. }
    exists (p * 10)%Z. intros acc s.
    rewrite pretty_N_go_step, Hp by exact Hx.
    simpl. rewrite (digitValue_pretty _ Hmod). do 2 f_equal. simpl. lia.
Qed.

Lemma pretty_go_head (x : N) (s : string) :
  (0 < x)%N -> exists d rest, pretty_N_go x s = String (pretty_N_char d) rest.
Proof.
  revert s. induction (N.lt_wf_0 x) as [x _ IH]. intros s Hx.
  rewrite pretty_N_go_step by exact Hx.
  destruct (decide (x `div` 10 = 0)%N) as [Hsmall|Hbig].
  - rewrite Hsmall, pretty_N_go_0. eauto.
  - apply IH; [apply N.div_lt; lia | now apply N.neq_0_lt_0].
Qed.

Lemma pretty_N_char_not_sign (d : N) :
  pretty_N_char d <> "-"%char /\ pretty_N_char d <> "+"%char.
Proof. unfold pretty_N_char. split; now repeat case_match. Qed.

Lemma parseInt10_pretty_pos (p : positive) :
  parseInt10 (pretty (N.pos p)) = Int (Z.pos p)
  /\ parseDigits None (pretty (N.pos p)) = Some (Z.pos p)
  /\ truthy (pretty (N.pos p)) = true.
Proof.
  unfold pretty, pretty_N. rewrite decide_False by discriminate.
  destruct (parseDigits_pretty_go (N.pos p)) as [q Hq]; [lia|].
  destruct (pretty_go_head (N.pos p) "") as (d & rest & Hhead); [lia|].
  assert (parseDigits None (pretty_N_go (N.pos p) "") = Some (Z.pos p)) as Hd.
  { rewrite Hq. simpl. reflexivity. }
  split; [|split; [exact Hd | now rewrite Hhead]].
  unfold parseInt10. rewrite Hhead in *.
  simpl trimStart. rewrite isWhiteSpace_pretty.
  destruct (pretty_N_char_not_sign d) as [Hminus Hplus].
  destruct (pretty_N_char d) as [[] [] [] [] [] [] [] []] eqn:Hc;
    try congruence; rewrite Hd; f_equal; lia.
Qed.

(** A count written with [toString] is read back by [parseInt]. *)
Lemma parseInt10_toString (n : number) :
  parseInt10 (toString n) = n /\ truthy (toString n) = true.
Proof.
  destruct n as [|[|p|p]]; try (split; reflexivity).
  - destruct (parseInt10_pretty_pos p) as (Hp & _ & Ht).
    split; [exact Hp | exact Ht].
  - destruct (parseInt10_pretty_pos p) as (_ & Hd & _).
    split; [|reflexivity].
    change (match parseDigits None (pretty (N.pos p)) with
            | Some n => Int (-1 * n)
            | None => NaN
            end = Int (Z.neg p)).
    now rewrite Hd.
Qed.

End RoundTrip.

(** ** The URL authorizer *)

Section UrlAuthorizer.
Import JsString App.

Lemma isUrlAuthorized_owner (loc : Location) (authorized : string) :
  isSharedUrl loc = false -> isUrlAuthorized loc authorized = true.
Proof. unfold isUrlAuthorized. now intros ->. Qed.

Lemma isUrlAuthorized_unset (loc : Location) :
  isSharedUrl loc = true -> isUrlAuthorized loc "" = false.
Proof. unfold isUrlAuthorized. now intros ->. Qed.

Lemma isUrlAuthorized_restricted (loc : Location) (authorized : string) :
  isSharedUrl loc = true -> authorized <> "" ->
  isUrlAuthorized loc authorized
  = String.eqb (normalize (origin loc)) (normalize authorized)
    || startsWith (toLowerCase (href loc)) (normalize authorized).
Proof.
  unfold isUrlAuthorized. intros -> Hne.
  apply truthy_true_iff in Hne. now rewrite Hne.
Qed.

(** C1.  On the developer's own host ([isSharedUrl] false: Owner mode)
    [isUrlAuthorized] is true for every input, the empty authorized URL
    included.  On the shared host (Restricted mode) it is false when the
    authorized URL is empty, and otherwise true exactly when the origin
    and the authorized URL, each with its trailing slashes stripped and
    lower-cased, are equal, or the lower-cased [href] starts with the
    authorized URL so normalized. *)
Theorem C1_isUrlAuthorized_decides (loc : Location) (authorized : string) :
  (isSharedUrl loc = false -> isUrlAuthorized loc authorized = true)
  /\ (isSharedUrl loc = true -> isUrlAuthorized loc "" = false)
  /\ (isSharedUrl loc = true -> authorized <> "" ->
      (isUrlAuthorized loc authorized = true <->
       Spec.normalized (origin loc) = Spec.normalized authorized
       \/ exists rest,
            toLowerCase (href loc) = Spec.normalized authorized +:+ rest)).
Proof.
  split; [apply isUrlAuthorized_owner|].
  split; [apply isUrlAuthorized_unset|].
  intros Hshared Hne.
  rewrite (isUrlAuthorized_restricted loc authorized Hshared Hne).
  rewrite orb_true_iff, String.eqb_eq, startsWith_iff, !normalize_spec.
  reflexivity.
Qed.

(** The first scenario of the design, on a shared host: the match ignores
    case and a trailing slash. *)
Lemma C1_isUrlAuthorized_decides_witness :
  isUrlAuthorized
    (mkLocation "https://APP-PRE-1.EXAMPLE.COM/"
       "https://app-pre-1.example.com/" "app-pre-1.example.com")
    "https://app-pre-1.example.com" = true.
Proof.
  apply (proj2 (proj2 (C1_isUrlAuthorized_decides _ _)));
    [reflexivity | discriminate | left; reflexivity].
Defined.

End UrlAuthorizer.

(** ** One chat turn *)

Section ChatTurn.
Import JsString JsNumber App Props.

(** The four ways [handleSendMessage] leaves its synchronous part. *)
Lemma handleSendMessage_begin_cases (loc : Location) (w : World) :
  let st := react w in
  handleSendMessage_begin loc w =
    if negb (truthy (trim (chatInput st))) then (w, None)
    else if negb (isUrlAuthorized loc (authorizedUrl st)) then
      (setChatInput ""
         (appendChatMessage (mkMessage ai notAuthorizedText) w), None)
    else if isSharedUrl loc && geb (messageCount st) CHAT_LIMIT then
      (setChatInput ""
         (appendChatMessage (mkMessage ai limitReachedText) w), None)
    else
      (setIsChatLoading true
         (setChatInput ""
            (appendChatMessage (mkMessage user (chatInput st)) w)),
       Some (mkChatCall (chatInput st) (messageCount st))).
Proof. reflexivity. Qed.

(** Whatever the outcome, settling a call only adds to the transcript. *)
Lemma handleSendMessage_settle_appends (loc : Location) (call : ChatCall)
  (r : Settled) (wr : StorageWrite) (w : World) :
  exists tail,
    chatMessages (react (handleSendMessage_settle loc call r wr w))
    = (chatMessages (react w) ++ tail)%list
    /\ Forall (fun m => role m = ai) tail.
Proof.
  unfold handleSendMessage_settle, handleSendMessage_try.
  destruct r as [rt|m]; simpl.
  - destruct (truthyText rt) as [t|]; simpl.
    + destruct (isSharedUrl loc); simpl.
      * destruct wr as [|m]; simpl.
        -- exists [mkMessage ai t]. split; [reflexivity | repeat constructor].
        -- eexists [_; _]. rewrite <- app_assoc. split; [reflexivity|].
           repeat constructor.
      * exists [mkMessage ai t]. split; [reflexivity | repeat constructor].
    + exists []. rewrite app_nil_r. split; [reflexivity | constructor].
  - eexists [_]. split; [reflexivity | repeat constructor].
Qed.

(** C2, as the code has it.  A non-blank submission adds the user's
    message, raises the loading flag and calls the provider only when the
    URL is authorized and, on the shared host, the count is below the
    limit; the message then stays in the transcript, in its place,
    however the call settles.  When the URL is not authorized, or the
    limit is reached, the only message added is the assistant's notice,
    and the provider is not called. *)
Theorem C2_submission_outcomes (loc : Location) (w : World) :
  truthy (trim (chatInput (react w))) = true ->
  let st := react w in
  let w' := fst (handleSendMessage_begin loc w) in
  let sentCall := snd (handleSendMessage_begin loc w) in
  if negb (isUrlAuthorized loc (authorizedUrl st)) then
    chatMessages (react w')
    = (chatMessages st ++ [mkMessage ai notAuthorizedText])%list
    /\ sentCall = None
  else if isSharedUrl loc && geb (messageCount st) CHAT_LIMIT then
    chatMessages (react w')
    = (chatMessages st ++ [mkMessage ai limitReachedText])%list
    /\ sentCall = None
  else
    chatMessages (react w')
    = (chatMessages st ++ [mkMessage user (chatInput st)])%list
    /\ sentCall = Some (mkChatCall (chatInput st) (messageCount st))
    /\ isChatLoading (react w') = true
    /\ forall call r wr, exists tail,
         chatMessages (react (handleSendMessage_settle loc call r wr w'))
         = (chatMessages st ++ mkMessage user (chatInput st) :: tail)%list
         /\ Forall (fun m => role m = ai) tail.
Proof.
  intros Hinput. cbv zeta.
  rewrite handleSendMessage_begin_cases. cbv zeta. rewrite Hinput. simpl.
  destruct (isUrlAuthorized loc (authorizedUrl (react w))); simpl;
    [|split; reflexivity].
  destruct (isSharedUrl loc && geb (messageCount (react w)) CHAT_LIMIT);
    simpl; [split; reflexivity|].
  repeat split.
  intros call r wr.
  destruct (handleSendMessage_settle_appends loc call r wr
              (setIsChatLoading true
                 (setChatInput ""
                    (appendChatMessage
                       (mkMessage user (chatInput (react w))) w))))
    as (tail & Heq & Hai).
  exists tail. split; [|exact Hai].
  refine (eq_trans Heq _). simpl. now rewrite <- app_assoc.
Qed.

Lemma C2_submission_outcomes_witness :
  let w := chatWorld (origin sharedLocation) "hello" (Int 0) in
  truthy (trim (chatInput (react w))) = true
  /\ chatMessages (react (fst (handleSendMessage_begin sharedLocation w)))
     = [mkMessage user "hello"]
  /\ snd (handleSendMessage_begin sharedLocation w)
     = Some (mkChatCall "hello" (Int 0)).
Proof.
  pose proof (C2_submission_outcomes sharedLocation
                (chatWorld (origin sharedLocation) "hello" (Int 0))
                eq_refl) as H.
  split; [reflexivity|]. split; apply H.
Defined.

(** C2 as claimed fails: on the shared host with the count at the limit,
    submitting "hello" leaves only the assistant's notice in the
    transcript, and the same holds when the URL is not authorized, as on
    a page that has just been mounted and has no authorized URL yet; the
    user's message is in neither transcript and no request is sent. *)
Lemma C2_user_message_not_added :
  let atLimit := chatWorld (origin sharedLocation) "hello" (Int 3) in
  let unauthorized :=
    run sharedLocation [ChangeChatInput "hello"; SubmitChat]
      (initialSystem ∅) in
  handleSendMessage_begin sharedLocation atLimit
  = (setChatInput ""
       (appendChatMessage (mkMessage ai limitReachedText) atLimit), None)
  /\ chatMessages
       (react (fst (handleSendMessage_begin sharedLocation atLimit)))
     = [mkMessage ai limitReachedText]
  /\ ~ In (mkMessage user "hello")
         (chatMessages
            (react (fst (handleSendMessage_begin sharedLocation atLimit))))
  /\ transcriptOf unauthorized = [mkMessage ai notAuthorizedText]
  /\ ~ In (mkMessage user "hello") (transcriptOf unauthorized)
  /\ sent unauthorized = [].
Proof.
  cbv zeta. repeat split; try reflexivity.
  - intros [H|[]]. discriminate H.
  - intros [H|[]]. discriminate H.
Qed.

(** C7, as the code has it.  When the provider answers with no text, or
    with the empty text, settling the call changes nothing but the
    loading flag: no message is added, the count, the storage area, the
    alerts and the error log stay as they were. *)
Theorem C7_empty_response (loc : Location) (call : ChatCall)
  (responseText : option string) (wr : StorageWrite) (w : World) :
  responseText = None \/ responseText = Some "" ->
  let w' := handleSendMessage_settle loc call (Fulfilled responseText) wr w in
  w' = setIsChatLoading false w
  /\ chatMessages (react w') = chatMessages (react w)
  /\ isChatLoading (react w') = false
  /\ messageCount (react w') = messageCount (react w)
  /\ localStorage w' = localStorage w.
Proof. intros [-> | ->]; repeat split. Qed.

Lemma C7_empty_response_witness :
  let w := chatWorld (origin sharedLocation) "" (Int 1) in
  chatMessages
    (react (handleSendMessage_settle sharedLocation (mkChatCall "hi" (Int 1))
              (Fulfilled (Some "")) WriteStored w))
  = chatMessages (react w).
Proof.
  apply (C7_empty_response sharedLocation (mkChatCall "hi" (Int 1))
           (Some "") WriteStored
           (chatWorld (origin sharedLocation) "" (Int 1))).
  right; reflexivity.
Defined.

(** C7 as claimed fails: after the user's "hi", a response without text
    adds no assistant message; the transcript still ends with the user's
    own message. *)
Lemma C7_no_message_for_empty_text :
  let w :=
    mkWorld (mkState "" "" false (origin sharedLocation)
               [mkMessage user "hi"] "" true (Int 1)) ∅ [] [] in
  chatMessages
    (react (handleSendMessage_settle sharedLocation (mkChatCall "hi" (Int 1))
              (Fulfilled None) WriteStored w))
  = [mkMessage user "hi"]
  /\ chatMessages
       (react (handleSendMessage_settle sharedLocation
                 (mkChatCall "hi" (Int 1)) (Fulfilled (Some "")) WriteStored
                 w))
     = [mkMessage user "hi"].
Proof. split; reflexivity. Qed.

(** C8.  When the provider call is rejected, one assistant message is
    added whose text holds the message of the error (or "Connection
    error" when the error has none), the count and the storage area are
    not changed, and the loading flag is cleared: the rejection ends in
    the [catch] block, not outside the handler. *)
Theorem C8_provider_error (loc : Location) (call : ChatCall)
  (message : option string) (wr : StorageWrite) (w : World) :
  let w' := handleSendMessage_settle loc call (Rejected message) wr w in
  let t := chatFailureText (errorMessageOf message) in
  handleSendMessage_catch (handleSendMessage_try loc call (Rejected message) wr w)
  = appendChatMessage (mkMessage ai t) (consoleError "Chat failed" w)
  /\ chatMessages (react w') = (chatMessages (react w) ++ [mkMessage ai t])%list
  /\ includes t (default "Connection error" message) = true
  /\ messageCount (react w') = messageCount (react w)
  /\ localStorage w' = localStorage w
  /\ isChatLoading (react w') = false.
Proof.
  cbv zeta. repeat split.
  unfold chatFailureText.
  destruct message as [[|c d]|]; simpl errorMessageOf; simpl default.
  - destruct (_ +:+ _); reflexivity.
  - apply includes_middle.
  - apply includes_middle.
Qed.

(** The fifth scenario of the design: a rejection with "timeout". *)
Example provider_timeout :
  let w :=
    mkWorld (mkState "" "" false "" [mkMessage user "hi"] "" true (Int 2))
      ∅ [] [] in
  let w' :=
    handleSendMessage_settle sharedLocation (mkChatCall "hi" (Int 2))
      (Rejected (Some "timeout")) WriteStored w in
  chatMessages (react w')
  = [mkMessage user "hi";
     mkMessage ai
       "Sorry, I'm having trouble connecting: timeout. Please try again."]
  /\ messageCount (react w') = Int 2
  /\ isChatLoading (react w') = false.
Proof. repeat split. Qed.

(** C9, as the code has it.  When the write of the new count throws, the
    answer has already been added and the count already raised in memory;
    the throw is caught by the handler's [catch]: "Chat failed" is logged
    and a second assistant message with the error's text is added.  The
    storage area keeps its old content and the loading flag is cleared. *)
Theorem C9_storage_write_throws (loc : Location) (call : ChatCall)
  (aiText : string) (message : option string) (w : World) :
  isSharedUrl loc = true -> aiText <> "" ->
  let w' :=
    handleSendMessage_settle loc call (Fulfilled (Some aiText))
      (WriteThrows message) w in
  chatMessages (react w')
  = (chatMessages (react w)
     ++ [mkMessage ai aiText;
         mkMessage ai (chatFailureText (errorMessageOf message))])%list
  /\ consoleErrors w' = (consoleErrors w ++ ["Chat failed"])%list
  /\ messageCount (react w') = add (countAtSubmit call) (Int 1)
  /\ localStorage w' = localStorage w
  /\ isChatLoading (react w') = false.
Proof.
  intros Hshared Htext. apply truthy_true_iff in Htext. cbv zeta.
  unfold handleSendMessage_settle, handleSendMessage_try, truthyText.
  rewrite Htext, Hshared. simpl. rewrite <- app_assoc. repeat split.
Qed.

Lemma C9_storage_write_throws_witness :
  let w :=
    mkWorld (mkState "" "" false (origin sharedLocation)
               [mkMessage user "hi"] "" true (Int 1)) ∅ [] [] in
  let w' :=
    handleSendMessage_settle sharedLocation (mkChatCall "hi" (Int 1))
      (Fulfilled (Some "Hello!")) (WriteThrows (Some "QuotaExceededError"))
      w in
  messageCount (react w') = Int 2 /\ localStorage w' = ∅.
Proof.
  pose proof (C9_storage_write_throws sharedLocation
                (mkChatCall "hi" (Int 1)) "Hello!"
                (Some "QuotaExceededError")
                (mkWorld (mkState "" "" false (origin sharedLocation)
                            [mkMessage user "hi"] "" true (Int 1)) ∅ [] [])
                eq_refl ltac:(discriminate)) as H.
  cbv zeta. split; apply H.
Defined.

(** C9 as claimed fails: the failed write is shown to the user.  After a
    good answer whose count could not be stored, the transcript ends with
    an error message of the assistant, not with the answer. *)
Lemma C9_write_failure_is_shown :
  let w :=
    mkWorld (mkState "" "" false (origin sharedLocation)
               [mkMessage user "hi"] "" true (Int 1)) ∅ [] [] in
  let w' :=
    handleSendMessage_settle sharedLocation (mkChatCall "hi" (Int 1))
      (Fulfilled (Some "Hello!")) (WriteThrows (Some "QuotaExceededError"))
      w in
  chatMessages (react w')
  = [mkMessage user "hi"; mkMessage ai "Hello!";
     mkMessage ai
       "Sorry, I'm having trouble connecting: QuotaExceededError. Please try again."]
  /\ chatMessages (react w') <> [mkMessage user "hi"; mkMessage ai "Hello!"].
Proof. split; [reflexivity | discriminate]. Qed.

End ChatTurn.

(** ** The story helper *)

Section StoryHelper.
Import JsString JsNumber App Props.

(** C10.  [generateAIAssistance] leaves the count and the storage area as
    they are, before the call and after it, however the call settles and
    on either host; it behaves the same whatever the count and the
    storage area hold; and it calls the provider exactly when the title
    or the content is not empty and the URL is authorized, so the limit
    is no obstacle. *)
Theorem C10_assistance_ignores_quota (loc : Location) (w : World)
  (r : Settled) :
  let b := generateAIAssistance_begin loc w in
  let w' := generateAIAssistance_settle r w in
  (messageCount (react (fst b)) = messageCount (react w)
   /\ localStorage (fst b) = localStorage w)
  /\ (messageCount (react w') = messageCount (react w)
      /\ localStorage w' = localStorage w)
  /\ (forall c store,
        generateAIAssistance_begin loc (withQuota c store w)
        = (withQuota c store (fst b), snd b)
        /\ generateAIAssistance_settle r (withQuota c store w)
           = withQuota c store w')
  /\ (is_Some (snd b) <->
      (title (react w) <> "" \/ content (react w) <> "")
      /\ isUrlAuthorized loc (authorizedUrl (react w)) = true).
Proof.
  cbv zeta. unfold generateAIAssistance_begin.
  destruct w as [[t c g a ms inp l n] store als errs]. simpl.
  destruct t as [|t0 t]; destruct c as [|c0 c]; simpl;
    destruct (isUrlAuthorized loc a); simpl;
    (split; [split; reflexivity|]);
    (split; [destruct r as [rt|m]; [destruct rt as [[|]|]|];
             split; reflexivity|]);
    (split; [intros n' store';
             split; [reflexivity|];
             destruct r as [rt|m]; [destruct rt as [[|]|]|]; reflexivity|]);
    split;
    try (intros [x Hx]; discriminate Hx);
    try (intros [[H|H] H']; congruence);
    try (intros _; split; [|reflexivity]; (left + right); discriminate);
    try (intros _; eexists; reflexivity).
Qed.

(** The helper is called on the shared host although the limit is
    reached. *)
Example assistance_at_the_limit :
  let w :=
    mkWorld (mkState "The well" "" false (origin sharedLocation) [] "" false
               (Int 3)) ∅ [] [] in
  snd (generateAIAssistance_begin sharedLocation w)
  = Some (assistRequest "The well" "").
Proof. reflexivity. Qed.

End StoryHelper.

(** ** The page: what every run preserves *)

Section Runs.
Import JsString JsNumber App Props.

Lemma run_app (loc : Location) (es1 es2 : list Event) (s : System) :
  run loc (es1 ++ es2) s = run loc es2 (run loc es1 s).
Proof. revert s. induction es1 as [|e es1 IH]; intros s; simpl; auto. Qed.

Lemma Inv_initial (loc : Location) (store : gmap string string) :
  Inv loc (initialSystem store).
Proof. left. split; reflexivity. Qed.

(** The events that neither send nor settle a chat call keep the three
    fields the invariant speaks of. *)
Lemma Inv_frame (loc : Location) (s s' : System) :
  chatCalls s' = chatCalls s ->
  isChatLoading (react (world s')) = isChatLoading (react (world s)) ->
  countOf s' = countOf s ->
  Inv loc s -> Inv loc s'.
Proof.
  unfold Inv. intros -> -> ->. exact (fun H => H).
Qed.

Lemma Inv_step (loc : Location) (e : Event) (s : System) :
  Inv loc s -> Inv loc (step loc e s).
Proof.
  intros HI. destruct e as [v| |i r wr|v|v| |i r|[url|]|url]; simpl.
  - destruct (chatInputDisabled loc _); [exact HI|].
    revert HI. now apply Inv_frame.
  - destruct (chatSubmitDisabled loc _) eqn:Hdis; [exact HI|].
    unfold chatSubmitDisabled in Hdis.
    apply orb_false_iff in Hdis as [Hdis Hlim].
    apply orb_false_iff in Hdis as [Hload Hblank].
    destruct HI as [[Hcalls _]|(call & _ & Hup & _)]; [|congruence].
    rewrite handleSendMessage_begin_cases. cbv zeta.
    rewrite Hblank.
    destruct (negb (isUrlAuthorized loc _)).
    { left. split; [exact Hcalls | exact Hload]. }
    rewrite Hlim. right. eexists. simpl. rewrite Hcalls.
    split; [reflexivity|]. split; [reflexivity|]. split; [reflexivity|].
    intros Hshared. unfold countOf. simpl.
    rewrite Hshared in Hlim. exact Hlim.
  - destruct (chatCalls s !! i) as [call|] eqn:Hi; [|exact HI].
    left. simpl. split; [|reflexivity].
    destruct HI as [[Hcalls _]|(call' & Hcalls & _)];
      rewrite Hcalls in *; [discriminate Hi|].
    destruct i; [reflexivity | discriminate Hi].
  - revert HI. now apply Inv_frame.
  - revert HI. now apply Inv_frame.
  - destruct (assistDisabled _); [exact HI|].
    unfold generateAIAssistance_begin.
    destruct (negb _ && negb _); [revert HI; now apply Inv_frame|].
    destruct (negb (isUrlAuthorized loc _));
      revert HI; now apply Inv_frame.
  - destruct (assistCalls s !! i); [|exact HI].
    revert HI. apply Inv_frame; try reflexivity;
      unfold generateAIAssistance_settle, generateAIAssistance_try;
      destruct r as [rt|m]; try destruct (truthyText rt); reflexivity.
  - destruct (truthy url); [|exact HI].
    revert HI. now apply Inv_frame.
  - exact HI.
  - revert HI. now apply Inv_frame.
Qed.

Lemma Inv_run (loc : Location) (es : list Event) (s : System) :
  Inv loc s -> Inv loc (run loc es s).
Proof.
  revert s. induction es as [|e es IH]; intros s HI; simpl; [exact HI|].
  apply IH, Inv_step, HI.
Qed.

Lemma Inv_reachable (loc : Location) (store : gmap string string)
  (es : list Event) :
  Inv loc (run loc es (initialSystem store)).
Proof. apply Inv_run, Inv_initial. Qed.

(** The count after one event. *)
Lemma step_count (loc : Location) (e : Event) (s : System) :
  Inv loc s ->
  countOf (step loc e s)
  = if consumesQuota loc e s then add (countOf s) (Int 1) else countOf s.
Proof.
  intros HI. destruct e as [v| |i r wr|v|v| |i r|[url|]|url]; simpl.
  - now destruct (chatInputDisabled loc _).
  - destruct (chatSubmitDisabled loc _); [reflexivity|].
    rewrite handleSendMessage_begin_cases. cbv zeta.
    destruct (negb (truthy _)); [reflexivity|].
    destruct (negb (isUrlAuthorized loc _)); [reflexivity|].
    now destruct (isSharedUrl loc && geb _ CHAT_LIMIT).
  - destruct (chatCalls s !! i) as [call|] eqn:Hi.
    + assert (countAtSubmit call = countOf s) as Hcount.
      { destruct HI as [[Hcalls _]|(call' & Hcalls & _ & Hc & _)];
          rewrite Hcalls in Hi; [discriminate Hi|].
        destruct i; [|discriminate Hi]. now injection Hi as <-. }
      unfold countOf, handleSendMessage_settle, handleSendMessage_try.
      destruct r as [rt|m]; [|reflexivity].
      destruct (truthyText rt) as [t|]; simpl;
        [|now rewrite andb_false_r].
      destruct (isSharedUrl loc); simpl; [|reflexivity].
      rewrite Hcount. now destruct wr.
    + destruct r as [rt|m]; [|reflexivity].
      now rewrite andb_false_r.
  - reflexivity.
  - reflexivity.
  - destruct (assistDisabled _); [reflexivity|].
    unfold generateAIAssistance_begin.
    destruct (negb _ && negb _); [reflexivity|].
    now destruct (negb (isUrlAuthorized loc _)).
  - destruct (assistCalls s !! i); [|reflexivity].
    unfold countOf, generateAIAssistance_settle, generateAIAssistance_try.
    destruct r as [rt|m]; try destruct (truthyText rt); reflexivity.
  - now destruct (truthy url).
  - reflexivity.
  - reflexivity.
Qed.

End Runs.
(** ** The quota *)

Section Quota.
Import JsString JsNumber App Props.

Lemma initialMessageCount_absent (store : gmap string string) :
  store !! STORAGE_KEY = None -> initialMessageCount store = Int 0.
Proof. unfold initialMessageCount. now intros ->. Qed.

Lemma initialMessageCount_empty (store : gmap string string) :
  store !! STORAGE_KEY = Some "" -> initialMessageCount store = Int 0.
Proof. unfold initialMessageCount. now intros ->. Qed.

Lemma initialMessageCount_saved (store : gmap string string) (saved : string) :
  store !! STORAGE_KEY = Some saved -> saved <> "" ->
  initialMessageCount store = parseInt10 saved.
Proof.
  unfold initialMessageCount. intros -> Hne.
  apply truthy_true_iff in Hne. now rewrite Hne.
Qed.

(** After mount no event reads the storage area: with another area in
    its place the page takes the same step, up to the area itself. *)
Lemma step_never_reads_storage (loc : Location) (e : Event) (s : System)
  (store : gmap string string) :
  setStore ∅ (step loc e (setStore store s)) = setStore ∅ (step loc e s).
Proof.
  destruct e as [v| |i r wr|v|v| |i r|[url|]|url]; simpl.
  - now destruct (chatInputDisabled loc _).
  - destruct (chatSubmitDisabled loc _); [reflexivity|].
    rewrite !handleSendMessage_begin_cases. cbv zeta. simpl.
    destruct (negb (truthy _)); [reflexivity|].
    destruct (negb (isUrlAuthorized loc _)); [reflexivity|].
    now destruct (isSharedUrl loc && geb _ CHAT_LIMIT).
  - destruct (chatCalls s !! i) as [call|]; [|reflexivity].
    unfold handleSendMessage_settle, handleSendMessage_try.
    destruct r as [rt|m]; [|reflexivity].
    destruct (truthyText rt) as [t|]; [|reflexivity].
    destruct (isSharedUrl loc); [|reflexivity].
    now destruct wr.
  - reflexivity.
  - reflexivity.
  - destruct (assistDisabled _); [reflexivity|].
    unfold generateAIAssistance_begin. simpl.
    destruct (negb _ && negb _); [reflexivity|].
    now destruct (negb (isUrlAuthorized loc _)).
  - destruct (assistCalls s !! i); [|reflexivity].
    unfold generateAIAssistance_settle, generateAIAssistance_try.
    destruct r as [rt|m]; try destruct (truthyText rt); reflexivity.
  - now destruct (truthy url).
  - reflexivity.
  - reflexivity.
Qed.

(** A counted answer whose write goes through leaves the decimal text of
    the new count under the key. *)
Lemma counted_answer_is_persisted (loc : Location) (call : ChatCall)
  (aiText : string) (w : World) :
  isSharedUrl loc = true -> aiText <> "" ->
  let w' :=
    handleSendMessage_settle loc call (Fulfilled (Some aiText)) WriteStored w
  in
  messageCount (react w') = add (countAtSubmit call) (Int 1)
  /\ localStorage w' !! STORAGE_KEY = Some (toString (messageCount (react w'))).
Proof.
  intros Hshared Htext. apply truthy_true_iff in Htext. cbv zeta.
  unfold handleSendMessage_settle, handleSendMessage_try, truthyText.
  rewrite Htext, Hshared. simpl. split; [reflexivity|].
  apply lookup_insert_eq.
Qed.

(** On the developer's host the chat handler behaves the same whatever
    the count, the storage area and the outcome of a write are. *)
Lemma owner_mode_ignores_quota (loc : Location) (w : World) :
  isSharedUrl loc = false ->
  forall c store,
    fst (handleSendMessage_begin loc (withQuota c store w))
    = withQuota c store (fst (handleSendMessage_begin loc w))
    /\ userMessage <$> snd (handleSendMessage_begin loc (withQuota c store w))
       = userMessage <$> snd (handleSendMessage_begin loc w)
    /\ forall call call' r wr wr',
         handleSendMessage_settle loc call r wr (withQuota c store w)
         = withQuota c store (handleSendMessage_settle loc call' r wr' w).
Proof.
  intros Howner c store.
  rewrite !handleSendMessage_begin_cases. cbv zeta. simpl.
  rewrite Howner. simpl.
  split; [|split].
  - destruct (negb (truthy _)); [reflexivity|].
    now destruct (negb (isUrlAuthorized loc _)).
  - destruct (negb (truthy _)); [reflexivity|].
    now destruct (negb (isUrlAuthorized loc _)).
  - intros call call' r wr wr'.
    unfold handleSendMessage_settle, handleSendMessage_try.
    rewrite Howner.
    destruct r as [rt|m]; [|reflexivity].
    now destruct (truthyText rt).
Qed.

Lemma consumesQuota_shared (loc : Location) (e : Event) (s : System) :
  consumesQuota loc e s = true -> isSharedUrl loc = true.
Proof.
  destruct e as [| |i [rt|m] wr| | | | | |]; simpl; try discriminate.
  destruct (isSharedUrl loc); [reflexivity | discriminate].
Qed.

Lemma consumesQuota_is_chat_success (loc : Location) (e : Event) (s : System) :
  consumesQuota loc e s = true ->
  exists i aiText wr,
    e = ChatSettles i (Fulfilled (Some aiText)) wr /\ aiText <> "".
Proof.
  destruct e as [| |i [rt|m] wr| | | | | |]; simpl; try discriminate.
  rewrite !andb_true_iff, !bool_decide_eq_true.
  intros [_ [t Ht]]. unfold truthyText in Ht.
  destruct rt as [t'|]; [|discriminate Ht].
  exists i, t', wr. split; [reflexivity|].
  intros ->. discriminate Ht.
Qed.

(** Quota is consumed only by a call sent while the count was below the
    limit. *)
Lemma consumesQuota_below_limit (loc : Location) (e : Event) (s : System) :
  Inv loc s -> consumesQuota loc e s = true ->
  geb (countOf s) CHAT_LIMIT = false.
Proof.
  intros HI Hc. pose proof (consumesQuota_shared _ _ _ Hc) as Hshared.
  destruct e as [| |i [rt|m] wr| | | | | |]; simpl in Hc; try discriminate.
  rewrite !andb_true_iff, !bool_decide_eq_true in Hc.
  destruct Hc as [[_ [call Hcall]] _].
  destruct HI as [[Hcalls _]|(call' & _ & _ & _ & Hlim)].
  - rewrite Hcalls in Hcall. discriminate Hcall.
  - exact (Hlim Hshared).
Qed.

Lemma run_count (loc : Location) (es : list Event) (s : System) (c : Z) :
  Inv loc s -> countOf s = Int c ->
  countOf (run loc es s) = Int (c + Z.of_nat (consumed loc es s)).
Proof.
  revert s c. induction es as [|e es IH]; intros s c HI Hc; simpl.
  - rewrite Hc. f_equal. lia.
  - pose proof (step_count loc e s HI) as Hstep. rewrite Hc in Hstep.
    destruct (consumesQuota loc e s).
    + rewrite (IH _ (c + 1)%Z (Inv_step loc e s HI) Hstep). f_equal. lia.
    + rewrite (IH _ c (Inv_step loc e s HI) Hstep). reflexivity.
Qed.

Lemma run_count_bounded (loc : Location) (es : list Event) (s : System)
  (c : Z) :
  Inv loc s -> countOf s = Int c -> (c <= 3)%Z ->
  (c + Z.of_nat (consumed loc es s) <= 3)%Z.
Proof.
  revert s c. induction es as [|e es IH]; intros s c HI Hc Hle; simpl.
  - lia.
  - pose proof (step_count loc e s HI) as Hstep. rewrite Hc in Hstep.
    pose proof (consumesQuota_below_limit loc e s HI) as Hlim.
    destruct (consumesQuota loc e s).
    + specialize (Hlim eq_refl). rewrite Hc in Hlim. simpl in Hlim.
      apply Z.leb_gt in Hlim.
      specialize (IH _ (c + 1)%Z (Inv_step loc e s HI) Hstep). lia.
    + specialize (IH _ c (Inv_step loc e s HI) Hstep). lia.
Qed.

Lemma step_limitReached (loc : Location) (e : Event) (s : System) :
  Inv loc s -> limitReached s = true -> limitReached (step loc e s) = true.
Proof.
  unfold limitReached. intros HI Hlim.
  rewrite (step_count loc e s HI).
  destruct (consumesQuota loc e s); [|exact Hlim].
  destruct (countOf s) as [|z]; [discriminate Hlim|].
  simpl in *. apply Z.leb_le in Hlim. apply Z.leb_le. lia.
Qed.

Lemma run_limitReached (loc : Location) (es : list Event) (s : System) :
  Inv loc s -> limitReached s = true -> limitReached (run loc es s) = true.
Proof.
  revert s. induction es as [|e es IH]; intros s HI Hlim; simpl; [exact Hlim|].
  apply IH; [apply Inv_step, HI | apply step_limitReached; assumption].
Qed.

(** The line "N messages remaining" shows the [remaining] of the design
    while the quota is not exhausted, and is not rendered once it is. *)
Lemma remainingShown_spec (loc : Location) (st : State) (c : Z) :
  isSharedUrl loc = true -> messageCount st = Int c ->
  remainingShown loc st
  = if Spec.isExhausted c then None else Some (Int (Spec.remaining c)).
Proof.
  unfold remainingShown, Spec.isExhausted, Spec.remaining, Spec.limit.
  intros -> ->. simpl.
  destruct (Z.ltb_spec c 3), (Z.leb_spec 3 c); try lia; [|reflexivity].
  do 2 f_equal. lia.
Qed.

(** What a page reads back after the count [n] was stored. *)
Lemma initialMessageCount_stored (store : gmap string string) (n : number) :
  initialMessageCount (<[STORAGE_KEY := toString n]> store) = n.
Proof.
  unfold initialMessageCount. rewrite lookup_insert_eq.
  destruct (parseInt10_toString n) as [-> ->]. reflexivity.
Qed.

(** The storage area after one event: only an event that stores the
    count writes, and it writes the new count under the key. *)
Lemma step_storage (loc : Location) (e : Event) (s : System) :
  Inv loc s ->
  localStorage (world (step loc e s))
  = if storesCount loc e s
    then <[STORAGE_KEY := toString (add (countOf s) (Int 1))]>
           (localStorage (world s))
    else localStorage (world s).
Proof.
  intros HI. unfold storesCount.
  destruct e as [v| |i r wr|v|v| |i r|[url|]|url]; simpl.
  - now destruct (chatInputDisabled loc _).
  - destruct (chatSubmitDisabled loc _); [reflexivity|].
    rewrite handleSendMessage_begin_cases. cbv zeta.
    destruct (negb (truthy _)); [reflexivity|].
    destruct (negb (isUrlAuthorized loc _)); [reflexivity|].
    now destruct (isSharedUrl loc && geb _ CHAT_LIMIT).
  - destruct (chatCalls s !! i) as [call|] eqn:Hi.
    + assert (countAtSubmit call = countOf s) as Hcount.
      { destruct HI as [[Hcalls _]|(call' & Hcalls & _ & Hc & _)];
          rewrite Hcalls in Hi; [discriminate Hi|].
        destruct i; [|discriminate Hi]. now injection Hi as <-. }
      unfold handleSendMessage_settle, handleSendMessage_try.
      destruct r as [rt|m]; [|reflexivity].
      destruct (truthyText rt) as [t|]; simpl;
        [|now rewrite andb_false_r].
      destruct (isSharedUrl loc); simpl; [|reflexivity].
      rewrite Hcount. now destruct wr.
    + destruct r as [rt|m]; [|reflexivity].
      now rewrite andb_false_r.
  - reflexivity.
  - reflexivity.
  - destruct (assistDisabled _); [reflexivity|].
    unfold generateAIAssistance_begin.
    destruct (negb _ && negb _); [reflexivity|].
    now destruct (negb (isUrlAuthorized loc _)).
  - destruct (assistCalls s !! i); [|reflexivity].
    unfold generateAIAssistance_settle, generateAIAssistance_try.
    destruct r as [rt|m]; try destruct (truthyText rt); reflexivity.
  - now destruct (truthy url).
  - reflexivity.
  - reflexivity.
Qed.

Lemma storesCount_consumes (loc : Location) (e : Event) (s : System) :
  storesCount loc e s = true -> consumesQuota loc e s = true.
Proof. unfold storesCount. now intros [H _]%andb_true_iff. Qed.

End Quota.

(** ** Several tabs *)

Section TabsFacts.
Import JsString JsNumber App Props Tabs.

(** Two pages that agree up to the storage area are one page over two
    areas. *)
Lemma page_modulo_store (s1 s2 : System) :
  setStore ∅ s1 = setStore ∅ s2 ->
  s1 = setStore (localStorage (world s1)) s2.
Proof.
  destruct s1 as [[r1 st1 a1 c1] cc1 ac1 se1],
    s2 as [[r2 st2 a2 c2] cc2 ac2 se2].
  unfold setStore. simpl. intros H. injection H as -> -> -> -> -> ->.
  reflexivity.
Qed.

Lemma consumesQuota_setStore (loc : Location) (e : Event) (s : System)
  (store : gmap string string) :
  consumesQuota loc e (setStore store s) = consumesQuota loc e s.
Proof. now destruct e. Qed.

Lemma storesCount_setStore (loc : Location) (e : Event) (s : System)
  (store : gmap string string) :
  storesCount loc e (setStore store s) = storesCount loc e s.
Proof. now destruct e. Qed.

Lemma Inv_setStore (loc : Location) (s : System)
  (store : gmap string string) :
  Inv loc s -> Inv loc (setStore store s).
Proof. intros H. exact H. Qed.

Lemma step_modulo_store (loc : Location) (e : Event) (s1 s2 : System) :
  setStore ∅ s1 = setStore ∅ s2 ->
  setStore ∅ (step loc e s1) = setStore ∅ (step loc e s2).
Proof.
  intros H. rewrite (page_modulo_store s1 s2 H).
  apply step_never_reads_storage.
Qed.

(** The count of a page stays among the exact ones: it only moves by one
    from below the limit. *)
Lemma step_exact (loc : Location) (e : Event) (s : System) :
  Inv loc s -> Exact (countOf s) -> Exact (countOf (step loc e s)).
Proof.
  intros HI HE. rewrite (step_count loc e s HI).
  destruct (consumesQuota loc e s) eqn:Hc; [|exact HE].
  apply (consumesQuota_below_limit loc e s HI) in Hc.
  destruct (countOf s) as [|z]; [exact I|].
  simpl in *. apply Z.leb_gt in Hc.
  assert (3 <= 2 ^ 52)%Z by discriminate. lia.
Qed.

Lemma run_exact (loc : Location) (es : list Event) (s : System) :
  Inv loc s -> Exact (countOf s) -> Exact (countOf (run loc es s)).
Proof.
  revert s. induction es as [|e es IH]; intros s HI HE; simpl; [exact HE|].
  apply IH; [apply Inv_step, HI | apply step_exact; assumption].
Qed.

(** The limit test fails on [NaN] and on the numbers below 3. *)
Lemma below_limit_cases (n : number) :
  geb n CHAT_LIMIT = false ->
  n = NaN \/ exists z, n = Int z /\ (z < 3)%Z.
Proof.
  destruct n as [|z]; [now left|]. simpl. intros H%Z.leb_gt.
  right. exists z. split; [reflexivity | exact H].
Qed.

(** At the limit no answer is counted any more. *)
Lemma consumed_at_limit (loc : Location) (es : list Event) (s : System) :
  Inv loc s -> limitReached s = true -> consumed loc es s = 0.
Proof.
  revert s. induction es as [|e es IH]; intros s HI Hlim; simpl;
    [reflexivity|].
  rewrite (IH _ (Inv_step loc e s HI) (step_limitReached loc e s HI Hlim)).
  destruct (consumesQuota loc e s) eqn:Hc; [|reflexivity].
  apply (consumesQuota_below_limit loc e s HI) in Hc.
  unfold limitReached in Hlim. congruence.
Qed.

Lemma Traced_start (store : gmap string string) : Traced (start store).
Proof. intros i t Hi. discriminate Hi. Qed.

Lemma Traced_move (m : Move) (b : Browser) :
  Traced b -> Traced (move m b).
Proof.
  intros HT. destruct m as [loc|i|i e|store]; simpl.
  - intros j t' [[_ Hj]|[_ <-]]%lookup_snoc_Some; [exact (HT _ _ Hj)|].
    reflexivity.
  - destruct (tabs b !! i) as [t|] eqn:Hi; [|exact HT].
    intros j t' [(_ & <- & _)|[_ Hj]]%list_lookup_insert_Some;
      [reflexivity | exact (HT _ _ Hj)].
  - destruct (tabs b !! i) as [t|] eqn:Hi; [|exact HT].
    intros j t' [(_ & <- & _)|[_ Hj]]%list_lookup_insert_Some;
      [|exact (HT _ _ Hj)].
    simpl. rewrite run_app. simpl.
    rewrite step_never_reads_storage.
    apply step_modulo_store, (HT _ _ Hi).
  - exact HT.
Qed.

Lemma Traced_play (ms : list Move) (b : Browser) :
  Traced b -> Traced (play ms b).
Proof.
  revert b. induction ms as [|m ms IH]; intros b HT; simpl; [exact HT|].
  apply IH, Traced_move, HT.
Qed.

(** What is known of a tab from its mount and its events. *)
Lemma Traced_Inv (b : Browser) (i : nat) (t : Tab) :
  Traced b -> tabs b !! i = Some t -> Inv (address t) (page t).
Proof.
  intros HT Hi. rewrite (page_modulo_store _ _ (HT i t Hi)).
  apply Inv_setStore, Inv_reachable.
Qed.

Lemma Traced_count (b : Browser) (i : nat) (t : Tab) :
  Traced b -> tabs b !! i = Some t ->
  countOf (page t)
  = countOf (run (address t) (history t) (initialSystem (mountedOn t))).
Proof.
  intros HT Hi. now rewrite (page_modulo_store _ _ (HT i t Hi)) at 1.
Qed.

Lemma Traced_exact (b : Browser) (i : nat) (t : Tab) :
  Traced b -> tabs b !! i = Some t ->
  Exact (initialMessageCount (mountedOn t)) -> Exact (countOf (page t)).
Proof.
  intros HT Hi HE. rewrite (Traced_count b i t HT Hi).
  apply run_exact; [apply Inv_initial | exact HE].
Qed.

(** What happens elsewhere leaves a tab as it is. *)
Lemma move_elsewhere (m : Move) (b : Browser) (i : nat) (t : Tab) :
  tabs b !! i = Some t ->
  m <> Reload i -> (forall e, m <> On i e) ->
  tabs (move m b) !! i = Some t.
Proof.
  intros Hi Hreload Hon. destruct m as [loc|j|j e|store]; simpl.
  - now apply lookup_app_l_Some.
  - destruct (tabs b !! j) eqn:Hj; [|exact Hi].
    simpl. rewrite list_lookup_insert_ne; [exact Hi | congruence].
  - destruct (tabs b !! j) eqn:Hj; [|exact Hi].
    simpl. rewrite list_lookup_insert_ne; [exact Hi|].
    intros ->. now apply (Hon e).
  - exact Hi.
Qed.

(** An event of a tab. *)
Lemma move_here (b : Browser) (i : nat) (t : Tab) (e : Event) :
  tabs b !! i = Some t ->
  let s' := step (address t) e (setStore (shared b) (page t)) in
  shared (move (On i e) b) = localStorage (world s')
  /\ tabs (move (On i e) b) !! i
     = Some (mkTab (address t) s' (mountedOn t) (history t ++ [e])).
Proof.
  intros Hi. simpl. rewrite Hi. simpl. split; [reflexivity|].
  apply list_lookup_insert_eq, (lookup_lt_Some _ _ _ Hi).
Qed.

(** Once the limit test holds in a tab it holds there until the tab is
    reloaded, whatever happens in the other tabs and to the storage
    area. *)
Lemma limit_stays (i : nat) (ms : list Move) (b : Browser) (t : Tab) :
  Traced b -> tabs b !! i = Some t ->
  limitReached (page t) = true ->
  Forall (fun m => m <> Reload i) ms ->
  exists t',
    tabs (play ms b) !! i = Some t'
    /\ limitReached (page t') = true
    /\ address t' = address t
    /\ mountedOn t' = mountedOn t.
Proof.
  revert b t. induction ms as [|m ms IH]; intros b t HT Hi Hlim Hms; simpl.
  - exists t. repeat split; assumption.
  - apply Forall_cons in Hms as [Hm Hms].
    assert ((exists e, m = On i e) \/ forall e, m <> On i e) as [[e ->]|Hon].
    { destruct m as [loc|j|j e|store]; try (right; discriminate).
      destruct (decide (j = i)) as [->|Hne]; [left; now exists e|].
      right. congruence. }
    + destruct (move_here b i t e Hi) as [_ Hi'].
      destruct (IH _ _ (Traced_move _ _ HT) Hi') as (t' & Ht' & Hl & Ha & Hm');
        [|exact Hms|].
      { simpl. apply step_limitReached; [|exact Hlim].
        apply Inv_setStore, (Traced_Inv b i t HT Hi). }
      exists t'. repeat split; assumption.
    + apply (IH _ t (Traced_move _ _ HT)); try assumption.
      now apply move_elsewhere.
Qed.

(** On the developer's host no event of a tab writes the storage
    area. *)
Lemma owner_tab_never_writes (b : Browser) (i : nat) (t : Tab) (e : Event) :
  Traced b -> tabs b !! i = Some t ->
  isSharedUrl (address t) = false ->
  shared (move (On i e) b) = shared b.
Proof.
  intros HT Hi Howner. simpl. rewrite Hi. simpl.
  rewrite step_storage by apply Inv_setStore, (Traced_Inv b i t HT Hi).
  destruct (storesCount _ e _) eqn:Hst; [|reflexivity].
  apply storesCount_consumes, consumesQuota_shared in Hst. congruence.
Qed.

(** A counted answer whose write goes through leaves the count of its
    tab in the storage area, whatever was there. *)
Lemma tab_stores_its_count (b : Browser) (i : nat) (t : Tab) (e : Event) :
  Traced b -> tabs b !! i = Some t ->
  storesCount (address t) e (page t) = true ->
  shared (move (On i e) b)
  = <[STORAGE_KEY := toString (add (countOf (page t)) (Int 1))]> (shared b).
Proof.
  intros HT Hi Hst. simpl. rewrite Hi. simpl.
  rewrite step_storage by apply Inv_setStore, (Traced_Inv b i t HT Hi).
  now rewrite storesCount_setStore, Hst.
Qed.

End TabsFacts.


(** ** The claims about the count *)

Section QuotaClaims.
Import JsString JsNumber App Props Tabs.

(** C3, as the code has it.  The count is the [messageCount] of a page:
    every tab of the site has its own, read from the storage entry when
    the tab mounts.  Take any tab, after any interleaving of events of
    the open tabs, reloads, new tabs and changes of the storage area
    from outside, whose mount, if it is on the shared host, read an
    exact count.  An event of the tab leaves its count as it is, or adds
    exactly one to it, and it adds one exactly when the event is a chat
    call of the tab settling with a non-empty answer on the shared host;
    the call was then sent below the limit (or with the count [NaN]).
    So the count of the tab never goes down, stays exact, is not moved
    by the story helper, and is not moved by anything on the developer's
    host, where no event writes the storage area and the chat handler
    does not look at the count either, whatever the count is.  What
    happens in other tabs or to the storage area does not move the count
    of the tab; a reload replaces it by what the entry holds then. *)
Theorem C3_count_moves_only_on_chat_success (store : gmap string string)
  (ms : list Move) (i : nat) (t : Tab) :
  let b := play ms (start store) in
  let loc := address t in
  let s := page t in
  tabs b !! i = Some t ->
  (isSharedUrl loc = true -> Exact (initialMessageCount (mountedOn t))) ->
  (isSharedUrl loc = true -> Exact (countOf s))
  /\ (forall e,
        let s' := step loc e (setStore (shared b) s) in
        tabs (move (On i e) b) !! i
        = Some (mkTab loc s' (mountedOn t) (history t ++ [e]))
        /\ countOf s'
           = (if consumesQuota loc e s then add (countOf s) (Int 1)
              else countOf s)
        /\ (isSharedUrl loc = true -> Exact (countOf s'))
        /\ ltb (countOf s') (countOf s) = false
        /\ (forall z, countOf s = Int z ->
              exists z', countOf s' = Int z' /\ (z <= z' <= z + 1)%Z)
        /\ (consumesQuota loc e s = true ->
              isSharedUrl loc = true
              /\ (exists k aiText wr,
                    e = ChatSettles k (Fulfilled (Some aiText)) wr
                    /\ aiText <> "")
              /\ (countOf s = NaN
                  \/ exists z,
                       countOf s = Int z /\ (- 2 ^ 52 <= z < 3)%Z))
        /\ (e = ClickAssist \/ (exists k r, e = AssistSettles k r) ->
              countOf s' = countOf s)
        /\ (isSharedUrl loc = false ->
              countOf s' = countOf s
              /\ shared (move (On i e) b) = shared b))
  /\ (forall m, m <> Reload i -> (forall e, m <> On i e) ->
        tabs (move m b) !! i = Some t)
  /\ (tabs (move (Reload i) b) !! i = Some (mount loc (shared b))
      /\ countOf (page (mount loc (shared b)))
         = initialMessageCount (shared b))
  /\ (isSharedUrl loc = false ->
      forall c store',
        fst (handleSendMessage_begin loc (withQuota c store' (world s)))
        = withQuota c store' (fst (handleSendMessage_begin loc (world s)))
        /\ userMessage
             <$> snd (handleSendMessage_begin loc
                        (withQuota c store' (world s)))
           = userMessage <$> snd (handleSendMessage_begin loc (world s))
        /\ forall call call' r wr wr',
             handleSendMessage_settle loc call r wr
               (withQuota c store' (world s))
             = withQuota c store'
                 (handleSendMessage_settle loc call' r wr' (world s))).
Proof.
  cbv zeta. intros Hi Hmount.
  pose proof (Traced_play ms _ (Traced_start store)) as HT.
  pose proof (Traced_Inv _ i t HT Hi) as HI.
  assert (isSharedUrl (address t) = true -> Exact (countOf (page t))) as HE
    by (intros Hshared; exact (Traced_exact _ i t HT Hi (Hmount Hshared))).
  split; [exact HE|]. split; [|split; [|split]].
  - intros e.
    destruct (move_here _ i t e Hi) as [_ Hhere].
    split; [exact Hhere|].
    pose proof (step_count (address t) e _
                  (Inv_setStore _ _ (shared (play ms (start store))) HI))
      as Hstep.
    rewrite consumesQuota_setStore in Hstep.
    change (countOf (setStore (shared (play ms (start store))) (page t)))
      with (countOf (page t)) in Hstep.
    split; [exact Hstep|].
    split; [|split; [|split; [|split; [|split]]]].
    + intros Hshared.
      exact (step_exact (address t) e _
               (Inv_setStore _ _ (shared (play ms (start store))) HI)
               (HE Hshared)).
    + rewrite Hstep.
      destruct (consumesQuota (address t) e (page t));
        destruct (countOf (page t)) as [|z]; simpl; try reflexivity;
        apply Z.ltb_ge; lia.
    + intros z Hz. rewrite Hstep, Hz.
      destruct (consumesQuota (address t) e (page t)); eexists;
        (split; [reflexivity|lia]).
    + intros Hc. pose proof (consumesQuota_shared _ _ _ Hc) as Hshared.
      split; [exact Hshared|].
      split; [exact (consumesQuota_is_chat_success _ _ _ Hc)|].
      apply (consumesQuota_below_limit _ _ _ HI) in Hc.
      destruct (below_limit_cases _ Hc) as [Hnan|(z & Hz & Hlt)];
        [now left|].
      right. exists z. split; [exact Hz|].
      specialize (HE Hshared). rewrite Hz in HE. simpl in HE. lia.
    + intros [-> | (k & r & ->)]; rewrite Hstep; reflexivity.
    + intros Howner. split.
      * rewrite Hstep.
        destruct (consumesQuota (address t) e (page t)) eqn:Hc;
          [|reflexivity].
        apply consumesQuota_shared in Hc. congruence.
      * now apply (owner_tab_never_writes _ i t e HT Hi).
  - intros m Hreload Hon. now apply move_elsewhere.
  - split; [|reflexivity]. simpl. rewrite Hi. simpl.
    apply list_lookup_insert_eq, (lookup_lt_Some _ _ _ Hi).
  - intros Howner. apply owner_mode_ignores_quota, Howner.
Qed.

Lemma C3_count_moves_only_on_chat_success_witness :
  let es :=
    [authorizeOrigin sharedLocation; ChangeChatInput "hi"; SubmitChat] in
  let b := play (Open sharedLocation :: map (On 0) es) (start ∅) in
  let t := mkTab sharedLocation (run sharedLocation es (initialSystem ∅)) ∅ es
  in
  let e := ChatSettles 0 (Fulfilled (Some "Hello!")) WriteStored in
  tabs b !! 0 = Some t
  /\ isSharedUrl (address t) = true
  /\ Exact (initialMessageCount (mountedOn t))
  /\ consumesQuota (address t) e (page t) = true
  /\ countOf (page t) = Int 0
  /\ countOf (step (address t) e (setStore (shared b) (page t))) = Int 1.
Proof.
  cbv zeta.
  assert (tabs (play (Open sharedLocation
                      :: map (On 0)
                           [authorizeOrigin sharedLocation;
                            ChangeChatInput "hi"; SubmitChat])
                  (start ∅)) !! 0
          = Some (mkTab sharedLocation
                    (run sharedLocation
                       [authorizeOrigin sharedLocation; ChangeChatInput "hi";
                        SubmitChat] (initialSystem ∅))
                    ∅
                    [authorizeOrigin sharedLocation; ChangeChatInput "hi";
                     SubmitChat]))
    as Hi by (vm_compute; reflexivity).
  assert (Exact (Int 0)) as HE by (simpl; split; discriminate).
  split; [exact Hi|]. split; [reflexivity|]. split; [exact HE|].
  split; [vm_compute; reflexivity|]. split; [vm_compute; reflexivity|].
  destruct (C3_count_moves_only_on_chat_success ∅ _ 0 _ Hi (fun _ => HE))
    as (_ & Hstep & _).
  destruct (Hstep (ChatSettles 0 (Fulfilled (Some "Hello!")) WriteStored))
    as (_ & Hcount & _).
  etransitivity; [exact Hcount|]. vm_compute. reflexivity.
Defined.

(** C3 as claimed fails three times.  On the shared host, with the URL
    authorized, the story helper is answered with a suggestion, the
    suggestion reaches the content, and the count is still 0.  A count
    that was raised but could not be stored is lower again after a
    reload.  And with two tabs open the stored count itself goes down:
    the first tab has two answers counted and leaves "2" under the key,
    then the second tab, mounted while the entry was absent, has one
    answer counted and writes "1" over it; the first tab, reloaded,
    starts from 1. *)
Lemma C3_count_counterexamples :
  let helped :=
    run sharedLocation
      [authorizeOrigin sharedLocation; ChangeTitle "The well"; ClickAssist;
       AssistSettles 0 (Fulfilled (Some "A voice answers."))]
      (initialSystem ∅) in
  let unsaved :=
    run sharedLocation
      [authorizeOrigin sharedLocation; ChangeChatInput "hi"; SubmitChat;
       ChatSettles 0 (Fulfilled (Some "Hello!")) (WriteThrows None)]
      (initialSystem ∅) in
  let first :=
    play
      ([Open sharedLocation; Open sharedLocation;
        On 0 (authorizeOrigin sharedLocation);
        On 1 (authorizeOrigin sharedLocation)]
       ++ turnOn 0 "one" "1" ++ turnOn 0 "two" "2")%list
      (start ∅) in
  let second := play (turnOn 1 "three" "3") first in
  (isSharedUrl sharedLocation = true
   /\ sent helped = [assistRequest "The well" ""]
   /\ content (react (world helped))
      = "" +:+ suggestionSeparator +:+ "A voice answers."
   /\ countOf helped = Int 0
   /\ countOf helped <> add (Int 0) (Int 1)
   /\ localStorage (world helped) = ∅)
  /\ (countOf unsaved = Int 1
      /\ countOf (remount unsaved) = Int 0
      /\ ltb (countOf (remount unsaved)) (countOf unsaved) = true)
  /\ (shared first !! STORAGE_KEY = Some "2"
      /\ countOf <$> (page <$> tabs first !! 0) = Some (Int 2)
      /\ shared second !! STORAGE_KEY = Some "1"
      /\ countOf <$> (page <$> tabs second !! 0) = Some (Int 2)
      /\ countOf <$> (page <$> tabs (move (Reload 0) second) !! 0)
         = Some (Int 1)).
Proof. cbv zeta. repeat split; try (vm_compute; reflexivity). discriminate. Qed.

(** C4, as the code has it.  On the shared host the line "N messages
    remaining" shows max(0, limit - count), which is never negative, for
    every exact count below the limit, and gives way to the limit notice
    from the limit on.  Take any tab on the shared host, after any
    interleaving of events of the open tabs, reloads, new tabs and
    changes of the storage area, whose mount read the exact count [c0].
    Its count is [c0] plus the number of its own counted answers.  When
    [c0] is not above the limit the count never passes the limit, and
    the limit test holds exactly when the two add up to 3; when [c0] is
    at the limit or above no answer is counted and the limit test holds
    from the mount on.  Once the limit test holds in the tab it holds
    there until the tab is reloaded, whatever the other tabs do and
    whatever becomes of the storage entry.  A counted answer whose write
    goes through leaves the new count of the tab under the key. *)
Theorem C4_quota_exhaustion (store : gmap string string) (ms : list Move)
  (i : nat) (t : Tab) (c0 : Z) :
  let b := play ms (start store) in
  tabs b !! i = Some t ->
  isSharedUrl (address t) = true ->
  initialMessageCount (mountedOn t) = Int c0 ->
  (- 2 ^ 52 <= c0 <= 2 ^ 52)%Z ->
  let loc := address t in
  let s := page t in
  let n :=
    (c0 + Z.of_nat (consumed loc (history t) (initialSystem (mountedOn t))))%Z
  in
  (forall st c,
     messageCount st = Int c -> (- 2 ^ 52 <= c <= 2 ^ 52)%Z ->
     remainingShown loc st
     = (if Spec.isExhausted c then None else Some (Int (Spec.remaining c)))
     /\ (0 <= Spec.remaining c)%Z)
  /\ countOf s = Int n
  /\ limitReached s = Spec.isExhausted n
  /\ ((c0 <= Spec.limit)%Z ->
      (n <= Spec.limit)%Z /\ (limitReached s = true <-> n = Spec.limit))
  /\ ((Spec.limit <= c0)%Z -> n = c0 /\ limitReached s = true)
  /\ (limitReached s = true ->
      forall ms', Forall (fun m => m <> Reload i) ms' ->
        exists t',
          tabs (play ms' b) !! i = Some t'
          /\ limitReached (page t') = true)
  /\ (forall e, storesCount loc e s = true ->
        (n + 1 <= Spec.limit)%Z
        /\ shared (move (On i e) b) !! STORAGE_KEY
           = Some (toString (Int (n + 1)))
        /\ initialMessageCount (shared (move (On i e) b)) = Int (n + 1)).
Proof.
  cbv zeta. intros Hi Hshared Hstart Hc0.
  pose proof (Traced_play ms _ (Traced_start store)) as HT.
  pose proof (Traced_Inv _ i t HT Hi) as HI.
  pose proof (Inv_initial (address t) (mountedOn t)) as HI0.
  pose proof (run_count (address t) (history t) _ c0 HI0 Hstart) as Hcount.
  rewrite <- (Traced_count _ i t HT Hi) in Hcount.
  set (n := (c0 + Z.of_nat (consumed (address t) (history t)
                              (initialSystem (mountedOn t))))%Z) in *.
  assert (limitReached (page t) = Spec.isExhausted n)
    as Hlim by (unfold limitReached; now rewrite Hcount).
  split; [|split; [exact Hcount|split; [exact Hlim|]]].
  { intros st c Hc _. split; [now apply remainingShown_spec|].
    unfold Spec.remaining. lia. }
  split; [|split; [|split]].
  - intros Hle.
    pose proof (run_count_bounded (address t) (history t) _ c0 HI0 Hstart Hle)
      as Hn.
    fold n in Hn. split; [exact Hn|].
    rewrite Hlim. unfold Spec.isExhausted, Spec.limit in *.
    rewrite Z.leb_le. lia.
  - intros Hge.
    assert (limitReached (initialSystem (mountedOn t)) = true) as Hlim0.
    { unfold limitReached.
      change (countOf (initialSystem (mountedOn t)))
        with (initialMessageCount (mountedOn t)).
      rewrite Hstart. simpl. apply Z.leb_le. exact Hge. }
    assert (n = c0) as Hn.
    { unfold n. rewrite (consumed_at_limit _ _ _ HI0 Hlim0). lia. }
    split; [exact Hn|]. rewrite Hlim, Hn.
    unfold Spec.isExhausted. apply Z.leb_le. exact Hge.
  - intros Hreached ms' Hms'.
    destruct (limit_stays i ms' _ t HT Hi Hreached Hms')
      as (t' & Ht' & Hl & _).
    exists t'. split; assumption.
  - intros e Hst.
    pose proof (storesCount_consumes _ _ _ Hst) as Hc.
    apply (consumesQuota_below_limit _ _ _ HI) in Hc.
    rewrite Hcount in Hc. simpl in Hc. apply Z.leb_gt in Hc.
    rewrite (tab_stores_its_count _ i t e HT Hi Hst), Hcount.
    split; [unfold Spec.limit; lia|].
    split; [apply lookup_insert_eq | apply initialMessageCount_stored].
Qed.

Lemma C4_quota_exhaustion_witness :
  let es :=
    (authorizeOrigin sharedLocation
     :: turn "one" "1" ++ turn "two" "2" ++ turn "three" "3")%list in
  let b := play (Open sharedLocation :: map (On 0) es) (start ∅) in
  let t := mkTab sharedLocation (run sharedLocation es (initialSystem ∅)) ∅ es
  in
  let elsewhere :=
    (Edit ∅ :: Open sharedLocation :: On 1 (authorizeOrigin sharedLocation)
     :: turnOn 1 "four" "4")%list in
  tabs b !! 0 = Some t
  /\ isSharedUrl (address t) = true
  /\ initialMessageCount (mountedOn t) = Int 0
  /\ (- 2 ^ 52 <= 0 <= 2 ^ 52)%Z
  /\ consumed (address t) (history t) (initialSystem (mountedOn t)) = 3
  /\ countOf (page t) = Int 3
  /\ limitReached (page t) = true
  /\ Forall (fun m => m <> Reload 0) elsewhere
  /\ shared (play elsewhere b) !! STORAGE_KEY = Some "1"
  /\ exists t',
       tabs (play elsewhere b) !! 0 = Some t'
       /\ limitReached (page t') = true.
Proof.
  cbv zeta.
  assert (tabs (play (Open sharedLocation
                      :: map (On 0)
                           (authorizeOrigin sharedLocation
                            :: turn "one" "1" ++ turn "two" "2"
                               ++ turn "three" "3")%list)
                  (start ∅)) !! 0
          = Some (mkTab sharedLocation
                    (run sharedLocation
                       (authorizeOrigin sharedLocation
                        :: turn "one" "1" ++ turn "two" "2"
                           ++ turn "three" "3")%list
                       (initialSystem ∅))
                    ∅
                    (authorizeOrigin sharedLocation
                     :: turn "one" "1" ++ turn "two" "2"
                        ++ turn "three" "3")%list))
    as Hi by (vm_compute; reflexivity).
  assert (- 2 ^ 52 <= 0 <= 2 ^ 52)%Z as Hc0 by (split; discriminate).
  assert (Forall (fun m => m <> Reload 0)
            (Edit ∅ :: Open sharedLocation
             :: On 1 (authorizeOrigin sharedLocation)
             :: turnOn 1 "four" "4")%list)
    as Hms by (repeat constructor; discriminate).
  destruct (C4_quota_exhaustion ∅ _ 0 _ 0 Hi eq_refl eq_refl Hc0)
    as (_ & Hcount & _ & _ & _ & Hstays & _).
  split; [exact Hi|]. split; [reflexivity|]. split; [reflexivity|].
  split; [exact Hc0|]. split; [vm_compute; reflexivity|].
  split; [exact Hcount|]. split; [vm_compute; reflexivity|].
  split; [exact Hms|]. split; [vm_compute; reflexivity|].
  apply Hstays; [vm_compute; reflexivity | exact Hms].
Defined.

(** C4 as claimed fails for the storage entry, in two ways.  On the
    shared host three answers are counted and the limit test holds, but
    the write of the third count throws and the storage area keeps "2":
    the page mounted next starts from 2, the limit test fails, and a
    fourth question is sent to the provider and answered.  And with
    every write going through: two tabs are open, the first has three
    answers counted, its limit test holds and the entry holds "3"; the
    second tab, mounted while the entry was absent, then has its first
    answer counted and writes "1" over the "3".  A tab opened after that
    starts from 1 and its question goes to the provider: five questions
    have been answered. *)
Lemma C4_exhaustion_lost_on_reload :
  let es :=
    (authorizeOrigin sharedLocation
     :: turn "one" "1" ++ turn "two" "2"
        ++ [ChangeChatInput "three"; SubmitChat;
            ChatSettles 0 (Fulfilled (Some "3"))
              (WriteThrows (Some "QuotaExceededError"))])%list in
  let s := run sharedLocation es (initialSystem ∅) in
  let again :=
    run sharedLocation (authorizeOrigin sharedLocation :: turn "four" "4")
      (remount s) in
  let first :=
    play
      ([Open sharedLocation; Open sharedLocation;
        On 0 (authorizeOrigin sharedLocation);
        On 1 (authorizeOrigin sharedLocation)]
       ++ turnOn 0 "one" "1" ++ turnOn 0 "two" "2"
       ++ turnOn 0 "three" "3")%list
      (start ∅) in
  let second := play (turnOn 1 "four" "4") first in
  let third :=
    play
      (Open sharedLocation :: On 2 (authorizeOrigin sharedLocation)
       :: turnOn 2 "five" "5")
      second in
  (consumed sharedLocation es (initialSystem ∅) = 3
   /\ limitReached s = true
   /\ localStorage (world s) !! STORAGE_KEY = Some "2"
   /\ countOf (remount s) = Int 2
   /\ limitReached (remount s) = false
   /\ sent again = [chatRequest "four"]
   /\ transcriptOf again = [mkMessage user "four"; mkMessage ai "4"])
  /\ (shared first !! STORAGE_KEY = Some "3"
      /\ limitReached <$> (page <$> tabs first !! 0) = Some true
      /\ geb (initialMessageCount (shared first)) CHAT_LIMIT = true
      /\ shared second !! STORAGE_KEY = Some "1"
      /\ geb (initialMessageCount (shared second)) CHAT_LIMIT = false
      /\ transcriptOf <$> (page <$> tabs second !! 1)
         = Some [mkMessage user "four"; mkMessage ai "4"]
      /\ countOf <$> (page <$> tabs (play [Open sharedLocation] second) !! 2)
         = Some (Int 1)
      /\ sent <$> (page <$> tabs third !! 2) = Some [chatRequest "five"]
      /\ transcriptOf <$> (page <$> tabs third !! 2)
         = Some [mkMessage user "five"; mkMessage ai "5"]).
Proof. cbv zeta. repeat split; vm_compute; reflexivity. Qed.

(** C6.  In every page reached from mount at most one chat call is
    outstanding, and one is exactly while the loading flag is up; while
    it is up the submit button is disabled, so a submission changes
    nothing: no message is added and no request is sent. *)
Theorem C6_one_call_at_a_time (loc : Location) (store : gmap string string)
  (es : list Event) :
  let s := run loc es (initialSystem store) in
  length (chatCalls s) <= 1
  /\ (isChatLoading (react (world s)) = true <-> length (chatCalls s) = 1)
  /\ (isChatLoading (react (world s)) = true ->
      chatSubmitDisabled loc (react (world s)) = true
      /\ step loc SubmitChat s = s).
Proof.
  cbv zeta.
  destruct (Inv_reachable loc store es)
    as [[Hcalls Hload]|(call & Hcalls & Hload & _)];
    rewrite Hcalls, Hload; simpl.
  - split; [lia|]. split; [split; discriminate | discriminate].
  - split; [lia|]. split; [split; reflexivity|].
    intros _. unfold chatSubmitDisabled. rewrite Hload. split; reflexivity.
Qed.

Lemma C6_one_call_at_a_time_witness :
  let s :=
    run sharedLocation
      [authorizeOrigin sharedLocation; ChangeChatInput "hi"; SubmitChat;
       ChangeChatInput "again"]
      (initialSystem ∅) in
  isChatLoading (react (world s)) = true
  /\ step sharedLocation SubmitChat s = s.
Proof.
  split; [reflexivity|].
  apply (C6_one_call_at_a_time sharedLocation ∅
           [authorizeOrigin sharedLocation; ChangeChatInput "hi"; SubmitChat;
            ChangeChatInput "again"]).
  reflexivity.
Defined.

(** The gate of C6 is the button: [handleSendMessage] itself does not
    look at [isChatLoading], and run on a page that is loading it would
    add a second message and send a second request. *)
Remark handleSendMessage_does_not_test_loading :
  let w :=
    mkWorld (mkState "" "" false "" [mkMessage user "hi"] "again" true
               (Int 0)) ∅ [] [] in
  handleSendMessage_begin ownerLocation w
  = (mkWorld (mkState "" "" false ""
                [mkMessage user "hi"; mkMessage user "again"] "" true
                (Int 0)) ∅ [] [],
     Some (mkChatCall "again" (Int 0))).
Proof. reflexivity. Qed.

(** C5 fails on a stored value that is not a number: the count the page
    starts with is [NaN], not 0.  With that count the limit test is never
    true: on the shared host four answers in a row are requested and
    shown, and what is written back under the key is the text "NaN". *)
Theorem C5_unparsable_count_is_NaN :
  let store : gmap string string := {[ STORAGE_KEY := "abc" ]} in
  let s :=
    run sharedLocation
      (authorizeOrigin sharedLocation
       :: turn "one" "1" ++ turn "two" "2" ++ turn "three" "3"
          ++ turn "four" "4")%list
      (initialSystem store) in
  initialMessageCount store = NaN
  /\ initialMessageCount store <> Int 0
  /\ length (sent s) = 4
  /\ countOf s = NaN
  /\ limitReached s = false
  /\ localStorage (world s) !! STORAGE_KEY = Some "NaN".
Proof. cbv zeta. repeat split. discriminate. Qed.

End QuotaClaims.

(** * Further properties of the component *)

(** ** Blank input *)

Section BlankInput.
Import JsString JsNumber App Props.

Lemma allWhiteSpace_trimStart (s : string) :
  allWhiteSpace (trimStart s) = allWhiteSpace s.
Proof.
  induction s as [|c s IH]; simpl; [reflexivity|].
  destruct (isWhiteSpace c) eqn:Hc; simpl; [exact IH | now rewrite Hc].
Qed.

Lemma trimEnd_empty_iff (s : string) :
  trimEnd s = "" <-> allWhiteSpace s = true.
Proof.
  destruct s as [|c s]; [split; reflexivity|].
  cbn [trimEnd]. destruct (allWhiteSpace (String c s));
    split; (reflexivity || discriminate).
Qed.

Lemma trim_blank_iff (s : string) :
  truthy (trim s) = false <-> allWhiteSpace s = true.
Proof.
  unfold trim.
  rewrite truthy_false_iff, trimEnd_empty_iff, allWhiteSpace_trimStart.
  reflexivity.
Qed.

(** X1.  An input made of white space only (spaces, tabs, line breaks,
    no-break spaces; the empty input too) is not a submission: the
    handler returns at once, and so does the form: no message is added,
    the input is kept, no request is sent and the count is not touched. *)
Theorem X1_blank_submission_is_ignored (loc : Location) (s : System) :
  allWhiteSpace (chatInput (react (world s))) = true ->
  handleSendMessage_begin loc (world s) = (world s, None)
  /\ chatSubmitDisabled loc (react (world s)) = true
  /\ step loc SubmitChat s = s.
Proof.
  intros Hblank. apply trim_blank_iff in Hblank.
  assert (chatSubmitDisabled loc (react (world s)) = true) as Hdis.
  { unfold chatSubmitDisabled. rewrite Hblank. simpl.
    now rewrite orb_true_r. }
  split; [|split; [exact Hdis|]].
  - rewrite handleSendMessage_begin_cases. cbv zeta. now rewrite Hblank.
  - simpl. now rewrite Hdis.
Qed.

Lemma X1_blank_submission_is_ignored_witness :
  let s :=
    run ownerLocation [ChangeChatInput (" " +:+ LF +:+ " ")] (initialSystem ∅)
  in
  allWhiteSpace (chatInput (react (world s))) = true
  /\ step ownerLocation SubmitChat s = s.
Proof.
  split; [reflexivity|].
  apply (X1_blank_submission_is_ignored ownerLocation
           (run ownerLocation [ChangeChatInput (" " +:+ LF +:+ " ")]
              (initialSystem ∅))).
  reflexivity.
Defined.

End BlankInput.

(** ** What the page sends and shows *)

Section SentAndShown.
Import JsString JsNumber App Props More.

(** What one event does to the transcript and to the requests sent:
    nothing is sent and only messages of the assistant are added; or a
    question is added and sent; or the story helper sends a request and
    the transcript stays.  A request is only sent from an authorized
    page, and a question on the shared host only while the limit test
    fails. *)
Local Ltac same_page :=
  exists []; rewrite app_nil_r; repeat split; constructor.

Lemma step_effect (loc : Location) (e : Event) (s : System) :
  (exists tail,
     transcriptOf (step loc e s) = (transcriptOf s ++ tail)%list
     /\ Forall (fun m => role m = ai) tail
     /\ sent (step loc e s) = sent s)
  \/ (isUrlAuthorized loc (authorizedUrl (react (world s))) = true
      /\ (isSharedUrl loc = true -> geb (countOf s) CHAT_LIMIT = false)
      /\ e = SubmitChat
      /\ transcriptOf (step loc e s)
         = (transcriptOf s
            ++ [mkMessage user (chatInput (react (world s)))])%list
      /\ sent (step loc e s)
         = (sent s ++ [chatRequest (chatInput (react (world s)))])%list)
  \/ (isUrlAuthorized loc (authorizedUrl (react (world s))) = true
      /\ e = ClickAssist
      /\ transcriptOf (step loc e s) = transcriptOf s
      /\ sent (step loc e s)
         = (sent s
            ++ [assistRequest (title (react (world s)))
                  (content (react (world s)))])%list).
Proof.
  destruct e as [v| |i r wr|v|v| |i r|[url|]|url]; simpl.
  - left. destruct (chatInputDisabled loc _); same_page.
  - destruct (chatSubmitDisabled loc _); [left; same_page|].
    rewrite handleSendMessage_begin_cases. cbv zeta.
    destruct (negb (truthy _)); [left; same_page|].
    destruct (isUrlAuthorized loc _) eqn:Hauth; simpl.
    2:{ left. eexists [_]. repeat split. repeat constructor. }
    destruct (isSharedUrl loc && geb _ CHAT_LIMIT) eqn:Hlim.
    { left. eexists [_]. repeat split. repeat constructor. }
    right; left. repeat split.
    intros Hshared. now rewrite Hshared in Hlim.
  - left. destruct (chatCalls s !! i) as [call|]; [|same_page].
    destruct (handleSendMessage_settle_appends loc call r wr (world s))
      as (tail & Heq & Hai).
    exists tail. repeat split; assumption.
  - left. same_page.
  - left. same_page.
  - destruct (assistDisabled _); [left; same_page|].
    unfold generateAIAssistance_begin.
    destruct (negb _ && negb _); [left; same_page|].
    destruct (isUrlAuthorized loc _) eqn:Hauth; simpl;
      [|left; same_page].
    right; right. repeat split.
  - left. destruct (assistCalls s !! i); [|same_page].
    unfold transcriptOf, generateAIAssistance_settle,
      generateAIAssistance_try.
    destruct r as [rt|m]; try destruct (truthyText rt); same_page.
  - left. destruct (truthy url); same_page.
  - left. same_page.
  - left. same_page.
Qed.

(** X2.  Whatever the event and the page, a request goes to the provider
    only from a page whose URL is authorized at that moment, at most one
    request per event, and on the shared host a question of the chat
    only while the limit test [messageCount >= CHAT_LIMIT] fails: the
    count is a number below 3, or it is [NaN], which the test never
    stops. *)
Theorem X2_requests_only_when_authorized (loc : Location) (e : Event)
  (s : System) :
  sent (step loc e s) = sent s
  \/ exists req,
       sent (step loc e s) = (sent s ++ [req])%list
       /\ isUrlAuthorized loc (authorizedUrl (react (world s))) = true
       /\ (isChatRequest req = true -> isSharedUrl loc = true ->
           geb (countOf s) CHAT_LIMIT = false
           /\ (countOf s = NaN
               \/ exists z, countOf s = Int z /\ (z < 3)%Z)).
Proof.
  destruct (step_effect loc e s)
    as [(tail & _ & _ & Hs)|[(Hauth & Hlim & _ & _ & Hs)
                            |(Hauth & _ & _ & Hs)]].
  - now left.
  - right. eexists. split; [exact Hs|]. split; [exact Hauth|].
    intros _ Hshared. split; [exact (Hlim Hshared)|].
    apply below_limit_cases, Hlim, Hshared.
  - right. eexists. split; [exact Hs|]. split; [exact Hauth|].
    discriminate.
Qed.

(** The count [NaN] does not stop a question on the shared host. *)
Example question_sent_with_NaN :
  sent (step sharedLocation SubmitChat
          (mkSystem (chatWorld (origin sharedLocation) "hi" NaN) [] [] []))
  = [chatRequest "hi"].
Proof. reflexivity. Qed.

Lemma step_keeps_unset_url (loc : Location) (e : Event) (s : System) :
  bringsAuthorizedUrl e = false ->
  authorizedUrl (react (world s)) = "" ->
  authorizedUrl (react (world (step loc e s))) = "".
Proof.
  intros He Hurl.
  destruct e as [v| |i r wr|v|v| |i r|[url|]|url]; simpl in *.
  - now destruct (chatInputDisabled loc _).
  - destruct (chatSubmitDisabled loc _); [exact Hurl|].
    rewrite handleSendMessage_begin_cases. cbv zeta.
    destruct (negb (truthy _)); [exact Hurl|].
    destruct (negb (isUrlAuthorized loc _)); [exact Hurl|].
    now destruct (isSharedUrl loc && geb _ CHAT_LIMIT).
  - destruct (chatCalls s !! i) as [call|]; [|exact Hurl].
    unfold handleSendMessage_settle, handleSendMessage_try.
    destruct r as [rt|m]; [|exact Hurl].
    destruct (truthyText rt); [|exact Hurl].
    destruct (isSharedUrl loc); [|exact Hurl]. now destruct wr.
  - exact Hurl.
  - exact Hurl.
  - destruct (assistDisabled _); [exact Hurl|].
    unfold generateAIAssistance_begin.
    destruct (negb _ && negb _); [exact Hurl|].
    now destruct (negb (isUrlAuthorized loc _)).
  - destruct (assistCalls s !! i); [|exact Hurl].
    unfold generateAIAssistance_settle, generateAIAssistance_try.
    destruct r as [rt|m]; try destruct (truthyText rt); exact Hurl.
  - now rewrite He.
  - exact Hurl.
  - destruct url; [reflexivity | discriminate He].
Qed.

(** X3.  On the shared host a page that has not been handed a non-empty
    authorized URL (its settings did not arrive, or hold the empty text)
    never calls the provider, whatever else happens on it: every question
    is answered with the notice, and the story helper only alerts. *)
Theorem X3_fail_closed_without_settings (loc : Location)
  (store : gmap string string) (es : list Event) :
  isSharedUrl loc = true ->
  Forall (fun e => bringsAuthorizedUrl e = false) es ->
  let s := run loc es (initialSystem store) in
  sent s = []
  /\ chatCalls s = []
  /\ assistCalls s = []
  /\ countOf s = initialMessageCount store
  /\ Forall (fun m => m = mkMessage ai notAuthorizedText) (transcriptOf s).
Proof.
  intros Hshared Hes. cbv zeta.
  assert (forall s,
            authorizedUrl (react (world s)) = "" ->
            sent s = [] /\ chatCalls s = [] /\ assistCalls s = []
            /\ countOf s = initialMessageCount store
            /\ Forall (fun m => m = mkMessage ai notAuthorizedText)
                 (transcriptOf s) ->
            let s' := run loc es s in
            sent s' = [] /\ chatCalls s' = [] /\ assistCalls s' = []
            /\ countOf s' = initialMessageCount store
            /\ Forall (fun m => m = mkMessage ai notAuthorizedText)
                 (transcriptOf s')) as Hrun.
  { induction Hes as [|e es He _ IH]; intros s Hurl Hs; [exact Hs|].
    simpl. apply IH; [now apply step_keeps_unset_url|].
    destruct Hs as (Hsent & Hchat & Hassist & Hcount & Hmsgs).
    assert (isUrlAuthorized loc (authorizedUrl (react (world s))) = false)
      as Hauth by (rewrite Hurl; now apply isUrlAuthorized_unset).
    clear IH. unfold countOf, transcriptOf in *.
    destruct e as [v| |i r wr|v|v| |i r|[url|]|url]; simpl in *.
    - now destruct (chatInputDisabled loc _).
    - destruct (chatSubmitDisabled loc _); [now repeat split|].
      rewrite handleSendMessage_begin_cases. cbv zeta.
      destruct (negb (truthy _)); [now repeat split|].
      rewrite Hauth. simpl. repeat split; try assumption.
      apply Forall_app. split; [assumption | now repeat constructor].
    - rewrite Hchat. simpl. now repeat split.
    - now repeat split.
    - now repeat split.
    - destruct (assistDisabled _); [now repeat split|].
      unfold generateAIAssistance_begin.
      destruct (negb _ && negb _); [now repeat split|].
      rewrite Hauth. simpl. now repeat split.
    - rewrite Hassist. simpl. now repeat split.
    - rewrite He. now repeat split.
    - now repeat split.
    - now repeat split. }
  apply Hrun; [reflexivity|].
  repeat split. constructor.
Qed.

Lemma X3_fail_closed_without_settings_witness :
  let es :=
    [SettingsFetched None; ChangeChatInput "hello"; SubmitChat;
     ChangeTitle "The well"; ClickAssist] in
  isSharedUrl sharedLocation = true
  /\ Forall (fun e => bringsAuthorizedUrl e = false) es
  /\ sent (run sharedLocation es (initialSystem ∅)) = [].
Proof.
  cbv zeta. split; [reflexivity|].
  assert (Forall (fun e => bringsAuthorizedUrl e = false)
            [SettingsFetched None; ChangeChatInput "hello"; SubmitChat;
             ChangeTitle "The well"; ClickAssist]) as Hes
    by (repeat constructor).
  split; [exact Hes|].
  apply (X3_fail_closed_without_settings sharedLocation ∅ _ eq_refl Hes).
Defined.

Lemma run_snoc (loc : Location) (es : list Event) (e : Event) (s : System) :
  run loc (es ++ [e]) s = step loc e (run loc es s).
Proof. now rewrite run_app. Qed.

(** X5.  The transcript only grows at its end: after any run of events
    the transcript before is still there, in its place, and what was
    added is behind it. *)
Theorem X5_transcript_is_append_only (loc : Location) (es : list Event)
  (s : System) :
  exists added,
    transcriptOf (run loc es s) = (transcriptOf s ++ added)%list.
Proof.
  revert s. induction es as [|e es IH]; intros s; simpl.
  - exists []. now rewrite app_nil_r.
  - destruct (IH (step loc e s)) as [added Hadded].
    assert (exists tail,
              transcriptOf (step loc e s) = (transcriptOf s ++ tail)%list)
      as [tail Htail].
    { destruct (step_effect loc e s)
        as [(tail & Ht & _)|[(_ & _ & _ & Ht & _)|(_ & _ & Ht & _)]].
      - now exists tail.
      - eexists. exact Ht.
      - exists []. now rewrite app_nil_r. }
    exists (tail ++ added)%list.
    now rewrite Hadded, Htail, app_assoc.
Qed.

Lemma filter_isUserMessage_ai (tail : list ChatMessage) :
  Forall (fun m => role m = ai) tail -> List.filter isUserMessage tail = [].
Proof.
  induction 1 as [|m tail Hm _ IH]; simpl; [reflexivity|].
  unfold isUserMessage at 1. now rewrite Hm.
Qed.

Lemma step_questions (loc : Location) (e : Event) (s : System) :
  questionsShown s = questionsSent s ->
  questionsShown (step loc e s) = questionsSent (step loc e s).
Proof.
  unfold questionsShown, questionsSent. intros Hq.
  destruct (step_effect loc e s)
    as [(tail & Ht & Hai & Hs)|[(_ & _ & _ & Ht & Hs)|(_ & _ & Ht & Hs)]];
    rewrite Ht, Hs.
  - rewrite List.filter_app, (filter_isUserMessage_ai tail Hai), app_nil_r.
    exact Hq.
  - rewrite !List.filter_app, !map_app, Hq. reflexivity.
  - rewrite List.filter_app, map_app, Hq. simpl. now rewrite app_nil_r.
Qed.

(** X6.  On every page reached from mount the questions shown in the
    transcript are exactly the questions sent to the provider, in the
    same order: no question is shown without being sent, none is sent
    without being shown, and none is sent twice. *)
Theorem X6_questions_shown_are_questions_sent (loc : Location)
  (store : gmap string string) (es : list Event) :
  questionsShown (run loc es (initialSystem store))
  = questionsSent (run loc es (initialSystem store)).
Proof.
  assert (questionsShown (initialSystem store)
          = questionsSent (initialSystem store)) as H0 by reflexivity.
  revert H0. generalize (initialSystem store).
  induction es as [|e es IH]; intros s Hs; simpl; [exact Hs|].
  apply IH, step_questions, Hs.
Qed.

End SentAndShown.

(** ** The story helper, one call at a time *)

Section HelperCalls.
Import JsString JsNumber App Props More.

Lemma helper_calls_step (loc : Location) (e : Event) (s : System) :
  (assistCalls s = [] /\ isGenerating (react (world s)) = false
   \/ exists req, assistCalls s = [req]
                  /\ isGenerating (react (world s)) = true) ->
  (assistCalls (step loc e s) = []
   /\ isGenerating (react (world (step loc e s))) = false
   \/ exists req, assistCalls (step loc e s) = [req]
                  /\ isGenerating (react (world (step loc e s))) = true).
Proof.
  intros H.
  destruct e as [v| |i r wr|v|v| |i r|[url|]|url]; simpl.
  - now destruct (chatInputDisabled loc _).
  - destruct (chatSubmitDisabled loc _); [exact H|].
    rewrite handleSendMessage_begin_cases. cbv zeta.
    destruct (negb (truthy _)); [exact H|].
    destruct (negb (isUrlAuthorized loc _)); [exact H|].
    now destruct (isSharedUrl loc && geb _ CHAT_LIMIT).
  - destruct (chatCalls s !! i) as [call|]; [|exact H].
    unfold handleSendMessage_settle, handleSendMessage_try. simpl.
    destruct r as [rt|m]; [|exact H].
    destruct (truthyText rt); [|exact H].
    destruct (isSharedUrl loc); [|exact H]. now destruct wr.
  - exact H.
  - exact H.
  - destruct (assistDisabled _) eqn:Hdis; [exact H|].
    unfold assistDisabled in Hdis. apply orb_false_iff in Hdis as [Hgen _].
    destruct H as [[Hcalls _]|(req & _ & Hup)]; [|congruence].
    unfold generateAIAssistance_begin.
    destruct (negb _ && negb _); [now left|].
    destruct (negb (isUrlAuthorized loc _)); [now left|].
    right. eexists. simpl. rewrite Hcalls. split; reflexivity.
  - destruct (assistCalls s !! i) as [req|] eqn:Hi; [|exact H].
    left. simpl. split; [|reflexivity].
    destruct H as [[Hcalls _]|(req' & Hcalls & _)];
      rewrite Hcalls in *; [discriminate Hi|].
    destruct i; [reflexivity | discriminate Hi].
  - now destruct (truthy url).
  - exact H.
  - exact H.
Qed.

(** X4.  On every page reached from mount at most one call of the story
    helper is outstanding, and one is exactly while [isGenerating] is
    set; while it is set the "Get AI Help" button is disabled and a click
    changes nothing.  A chat call may be outstanding at the same time. *)
Theorem X4_one_helper_call_at_a_time (loc : Location)
  (store : gmap string string) (es : list Event) :
  let s := run loc es (initialSystem store) in
  length (assistCalls s) <= 1
  /\ (isGenerating (react (world s)) = true <-> length (assistCalls s) = 1)
  /\ (isGenerating (react (world s)) = true ->
      step loc ClickAssist s = s).
Proof.
  cbv zeta.
  assert (assistCalls (run loc es (initialSystem store)) = []
          /\ isGenerating
               (react (world (run loc es (initialSystem store)))) = false
          \/ exists req,
               assistCalls (run loc es (initialSystem store)) = [req]
               /\ isGenerating
                    (react (world (run loc es (initialSystem store))))
                  = true) as H.
  { assert (assistCalls (initialSystem store) = []
            /\ isGenerating (react (world (initialSystem store))) = false
            \/ exists req,
                 assistCalls (initialSystem store) = [req]
                 /\ isGenerating (react (world (initialSystem store)))
                    = true) as H0 by (left; split; reflexivity).
    revert H0. generalize (initialSystem store).
    induction es as [|e es IH]; intros s Hs; simpl; [exact Hs|].
    apply IH, helper_calls_step, Hs. }
  destruct H as [[Hcalls Hgen]|(req & Hcalls & Hgen)];
    rewrite Hcalls, Hgen; simpl.
  - split; [lia|]. split; [split; discriminate | discriminate].
  - split; [lia|]. split; [split; reflexivity|].
    intros _. unfold assistDisabled. now rewrite Hgen.
Qed.

(** A question and a request of the helper outstanding together. *)
Example chat_and_helper_together :
  let s :=
    run ownerLocation
      [ChangeChatInput "hi"; SubmitChat; ChangeTitle "The well"; ClickAssist]
      (initialSystem ∅) in
  length (chatCalls s) = 1 /\ length (assistCalls s) = 1.
Proof. split; reflexivity. Qed.

End HelperCalls.

(** ** The configured URL *)

Section ConfiguredUrl.
Import JsString JsNumber App Props More.

Lemma allSlashes_app (s t : string) :
  allSlashes (s +:+ t) = allSlashes s && allSlashes t.
Proof.
  induction s as [|c s IH]; [reflexivity|].
  change (String c s +:+ t) with (String c (s +:+ t)).
  cbn [allSlashes]. rewrite IH. apply andb_assoc.
Qed.

Lemma replaceTrailingSlashes_app_slashes (s t : string) :
  allSlashes t = true ->
  replaceTrailingSlashes (s +:+ t) = replaceTrailingSlashes s.
Proof.
  intros Ht. induction s as [|c s IH].
  - change ("" +:+ t) with t. now apply allSlashes_replace.
  - change (String c s +:+ t) with (String c (s +:+ t)).
    cbn [replaceTrailingSlashes].
    rewrite allSlashes_app, Ht, andb_true_r, IH. reflexivity.
Qed.

Lemma lowerChar_slash (c : ascii) :
  Ascii.eqb (lowerChar c) slash = Ascii.eqb c slash.
Proof. destruct c as [[] [] [] [] [] [] [] []]; reflexivity. Qed.

Lemma lowerChar_idempotent (c : ascii) :
  lowerChar (lowerChar c) = lowerChar c.
Proof. destruct c as [[] [] [] [] [] [] [] []]; reflexivity. Qed.

Lemma toLowerCase_idempotent (s : string) :
  toLowerCase (toLowerCase s) = toLowerCase s.
Proof.
  induction s as [|c s IH]; simpl; [reflexivity|].
  now rewrite lowerChar_idempotent, IH.
Qed.

Lemma allSlashes_toLowerCase (s : string) :
  allSlashes (toLowerCase s) = allSlashes s.
Proof.
  induction s as [|c s IH]; simpl; [reflexivity|].
  now rewrite lowerChar_slash, IH.
Qed.

Lemma replaceTrailingSlashes_toLowerCase (s : string) :
  replaceTrailingSlashes (toLowerCase s)
  = toLowerCase (replaceTrailingSlashes s).
Proof.
  induction s as [|c s IH]; simpl; [reflexivity|].
  rewrite lowerChar_slash, allSlashes_toLowerCase, IH.
  now destruct (Ascii.eqb c slash && allSlashes s).
Qed.

Lemma normalize_app_slashes (s t : string) :
  allSlashes t = true -> normalize (s +:+ t) = normalize s.
Proof.
  intros Ht. unfold normalize.
  now rewrite replaceTrailingSlashes_app_slashes.
Qed.

Lemma normalize_toLowerCase (s : string) :
  normalize (toLowerCase s) = normalize s.
Proof.
  unfold normalize.
  now rewrite replaceTrailingSlashes_toLowerCase, toLowerCase_idempotent.
Qed.

Lemma truthy_app_l (s t : string) :
  truthy s = true -> truthy (s +:+ t) = true.
Proof. now destruct s. Qed.

Lemma truthy_toLowerCase (s : string) : truthy (toLowerCase s) = truthy s.
Proof. now destruct s. Qed.

(** X8.  The decision does not depend on how the authorized URL is
    spelled: slashes added at the end of a non-empty authorized URL, and
    the case of its letters, change nothing; nor do slashes at the end of
    the page's origin or the case of the origin and of the address. *)
Theorem X8_authorization_ignores_case_and_trailing_slashes
  (loc : Location) (authorized slashes : string) :
  authorized <> "" -> allSlashes slashes = true ->
  isUrlAuthorized loc (authorized +:+ slashes) = isUrlAuthorized loc authorized
  /\ isUrlAuthorized loc (toLowerCase authorized)
     = isUrlAuthorized loc authorized
  /\ isUrlAuthorized
       (mkLocation (toLowerCase (origin loc +:+ slashes))
          (toLowerCase (href loc)) (hostname loc)) authorized
     = isUrlAuthorized loc authorized.
Proof.
  intros Hne Hslashes. apply truthy_true_iff in Hne.
  unfold isUrlAuthorized, isSharedUrl. simpl.
  rewrite (truthy_app_l _ slashes Hne), truthy_toLowerCase, Hne.
  rewrite !normalize_toLowerCase, !normalize_app_slashes by assumption.
  rewrite toLowerCase_idempotent. repeat split.
Qed.

Lemma X8_authorization_ignores_case_and_trailing_slashes_witness :
  isUrlAuthorized sharedLocation "HTTPS://Katha-Pre-Demo.run.app//"
  = isUrlAuthorized sharedLocation "HTTPS://Katha-Pre-Demo.run.app".
Proof.
  apply (X8_authorization_ignores_case_and_trailing_slashes sharedLocation
           "HTTPS://Katha-Pre-Demo.run.app" "//");
    [discriminate | reflexivity].
Defined.

(** X9.  An authorized URL that consists of slashes only, such as "/",
    is not empty yet is normalized to the empty text, which every address
    starts with: on the shared host it authorizes every page. *)
Theorem X9_slashes_authorize_every_page (loc : Location)
  (authorized : string) :
  authorized <> "" -> allSlashes authorized = true ->
  normalize authorized = "" /\ isUrlAuthorized loc authorized = true.
Proof.
  intros Hne Hall. apply truthy_true_iff in Hne.
  assert (normalize authorized = "") as Hnorm
    by (unfold normalize; now rewrite allSlashes_replace).
  split; [exact Hnorm|].
  unfold isUrlAuthorized. rewrite Hne, Hnorm.
  destruct (isSharedUrl loc); simpl; [|reflexivity].
  apply orb_true_iff. right. unfold startsWith.
  now destruct (toLowerCase (href loc)).
Qed.

Lemma X9_slashes_authorize_every_page_witness :
  isUrlAuthorized sharedLocation "/" = true.
Proof.
  apply (X9_slashes_authorize_every_page sharedLocation "/");
    [discriminate | reflexivity].
Defined.

(** X7.  The count survives the storage: for every exact count, [NaN]
    included, the text [toString] writes under the key is read back by
    the initializer of the next mount as the same count, whatever else
    the storage area holds; the texts written for two different exact
    counts differ. *)
Theorem X7_stored_count_is_read_back (store : gmap string string)
  (n m : number) :
  Exact n -> Exact m ->
  parseInt10 (toString n) = n
  /\ initialMessageCount (<[STORAGE_KEY := toString n]> store) = n
  /\ (toString n = toString m -> n = m).
Proof.
  intros _ _.
  split; [apply parseInt10_toString|].
  split; [apply initialMessageCount_stored|].
  intros Heq.
  rewrite <- (proj1 (parseInt10_toString n)),
    <- (proj1 (parseInt10_toString m)).
  now rewrite Heq.
Qed.

Lemma X7_stored_count_is_read_back_witness :
  Exact (Int 2) /\ Exact NaN
  /\ initialMessageCount
       (<[STORAGE_KEY := toString (Int 2)]> {[ "theme" := "dark" ]})
     = Int 2
  /\ toString (Int 2) <> toString NaN.
Proof.
  assert (Exact (Int 2)) as H2 by (simpl; split; discriminate).
  split; [exact H2|]. split; [exact I|].
  destruct (X7_stored_count_is_read_back {[ "theme" := "dark" ]}
              (Int 2) NaN H2 I) as (_ & Hread & Hinj).
  split; [exact Hread|].
  intros Heq. apply Hinj in Heq. discriminate Heq.
Defined.

End ConfiguredUrl.

(** * The server *)

Section ServerSettings.

Lemma posted_url_is_answered (db : Server.Database) (u : string) :
  Server.getSettings (Server.postSettings u db) !! "authorized_url" = Some u.
Proof.
  unfold Server.getSettings, Server.postSettings. simpl.
  rewrite lookup_delete_ne by discriminate. apply lookup_insert_eq.
Qed.

(** X10.  What is posted to the settings is what the settings answer:
    after [POST /api/settings] the answer of [GET /api/settings] holds
    the posted text under [authorized_url] and is otherwise as before;
    the stories are not touched, and of two posts the later one wins. *)
Theorem X10_settings_round_trip (db : Server.Database) (u v : string) :
  Server.getSettings (Server.postSettings u db) !! "authorized_url" = Some u
  /\ (forall k, k <> "authorized_url" ->
        Server.getSettings (Server.postSettings u db) !! k
        = Server.getSettings db !! k)
  /\ Server.stories (Server.postSettings u db) = Server.stories db
  /\ Server.postSettings v (Server.postSettings u db) = Server.postSettings v db.
Proof.
  unfold Server.getSettings, Server.postSettings. simpl.
  split; [|split; [|split]].
  - rewrite lookup_delete_ne by discriminate. apply lookup_insert_eq.
  - intros k Hk. destruct (decide (k = "__proto__")) as [->|Hp].
    + now rewrite !lookup_delete_eq.
    + rewrite !lookup_delete_ne by congruence.
      now rewrite lookup_insert_ne by congruence.
  - reflexivity.
  - now rewrite insert_insert_eq.
Qed.

Lemma initialize_has_url (db : Server.Database) :
  is_Some (Server.settings (Server.initialize db) !! "authorized_url").
Proof.
  unfold Server.initialize.
  destruct (Server.settings db !! "authorized_url") as [v|] eqn:Hv.
  - rewrite Hv. eauto.
  - simpl. rewrite lookup_insert_eq. eauto.
Qed.

Lemma serve_settings_url (r : Server.Request) (db : Server.Database) :
  is_Some (Server.settings db !! "authorized_url") ->
  is_Some (Server.settings (Server.serve r db) !! "authorized_url").
Proof.
  intros H. destruct r as [u|now body|target]; simpl.
  - rewrite lookup_insert_eq. eauto.
  - unfold Server.postStory.
    destruct (Server.body_title body), (Server.body_content body),
      (Server.body_author body); try exact H.
    now destruct (_ && _ && _).
  - exact H.
Qed.

(** X11.  Starting the server never loses the configuration.  The start
    script changes nothing in a database that already has a row for
    [authorized_url], so a URL saved before a restart is still answered
    after it; run twice it does what it does once; on a new database the
    settings answer the empty text; and once the row is there no request
    removes it. *)
Theorem X11_start_keeps_the_settings (db : Server.Database) (u : string)
  (rs : list Server.Request) :
  Server.initialize (Server.postSettings u db) = Server.postSettings u db
  /\ Server.getSettings (Server.initialize (Server.postSettings u db))
       !! "authorized_url" = Some u
  /\ Server.initialize (Server.initialize db) = Server.initialize db
  /\ Server.getSettings (Server.initialize Server.emptyDatabase)
       !! "authorized_url" = Some ""
  /\ Server.stories (Server.initialize db) = Server.stories db
  /\ is_Some (Server.getSettings
                (Server.serveAll rs (Server.initialize db))
                !! "authorized_url").
Proof.
  assert (Server.initialize (Server.postSettings u db)
          = Server.postSettings u db) as Hkeep.
  { unfold Server.initialize. simpl. now rewrite lookup_insert_eq. }
  split; [exact Hkeep|]. split; [|split; [|split; [|split]]].
  - rewrite Hkeep. apply (posted_url_is_answered db u).
  - unfold Server.initialize at 1.
    destruct (initialize_has_url db) as [v Hv]. now rewrite Hv.
  - reflexivity.
  - unfold Server.initialize.
    now destruct (Server.settings db !! "authorized_url").
  - unfold Server.getSettings. rewrite lookup_delete_ne by discriminate.
    pose proof (initialize_has_url db) as H.
    revert H. generalize (Server.initialize db).
    induction rs as [|r rs IH]; intros d Hd; simpl; [exact Hd|].
    apply IH, serve_settings_url, Hd.
Qed.

End ServerSettings.

Section ServerStories.

Lemma maxId_ge (rows : list Server.Story) (r : Server.Story) :
  In r rows -> (Server.id r <= Server.maxId rows)%Z.
Proof.
  induction rows as [|r' rows IH]; simpl; [intros []|].
  intros [->|Hin]; [lia|]. specialize (IH Hin). lia.
Qed.

Lemma nextId_fresh (db : Server.Database) (r : Server.Story) :
  In r (Server.stories db) -> (Server.id r < Server.nextId db)%Z.
Proof.
  intros Hin. apply maxId_ge in Hin. unfold Server.nextId. lia.
Qed.

Lemma selectById_id (target : Z) (rows : list Server.Story)
  (r : Server.Story) :
  Server.selectById target rows = Some r ->
  Server.id r = target /\ In r rows.
Proof.
  induction rows as [|r' rows IH]; simpl; [discriminate|].
  destruct (Z.eqb_spec (Server.id r') target) as [Heq|Hne].
  - intros [= ->]. auto.
  - intros H. destruct (IH H). auto.
Qed.

Lemma selectById_None (target : Z) (rows : list Server.Story) :
  Server.selectById target rows = None <->
  forall r, In r rows -> Server.id r <> target.
Proof.
  induction rows as [|r' rows IH]; simpl.
  - split; [intros _ r [] | reflexivity].
  - destruct (Z.eqb_spec (Server.id r') target) as [Heq|Hne].
    + split; [discriminate|]. intros H. now destruct (H r' (or_introl eq_refl)).
    + rewrite IH. split.
      * intros H r [<-|Hin]; auto.
      * intros H r Hin. apply H. now right.
Qed.

Lemma selectById_app (target : Z) (rows more : list Server.Story) :
  Server.selectById target (rows ++ more)
  = match Server.selectById target rows with
    | Some r => Some r
    | None => Server.selectById target more
    end.
Proof.
  induction rows as [|r rows IH]; simpl; [reflexivity|].
  now destruct (Server.id r =? target)%Z.
Qed.

Lemma addLike_id (target : Z) (r : Server.Story) :
  Server.id (Server.addLike target r) = Server.id r.
Proof. unfold Server.addLike. now destruct (Server.id r =? target)%Z. Qed.

Lemma addLike_created_at (target : Z) (r : Server.Story) :
  Server.created_at (Server.addLike target r) = Server.created_at r.
Proof. unfold Server.addLike. now destruct (Server.id r =? target)%Z. Qed.

Lemma map_addLike_ids (target : Z) (rows : list Server.Story) :
  map Server.id (map (Server.addLike target) rows) = map Server.id rows.
Proof.
  induction rows as [|r rows IH]; simpl; [reflexivity|].
  now rewrite addLike_id, IH.
Qed.

Lemma selectById_addLike (target liked : Z) (rows : list Server.Story) :
  Server.selectById target (map (Server.addLike liked) rows)
  = Server.addLike liked <$> Server.selectById target rows.
Proof.
  induction rows as [|r rows IH]; simpl; [reflexivity|].
  rewrite addLike_id. now destruct (Server.id r =? target)%Z.
Qed.

Lemma map_addLike_absent (target : Z) (rows : list Server.Story) :
  (forall r, In r rows -> Server.id r <> target) ->
  map (Server.addLike target) rows = rows.
Proof.
  induction rows as [|r rows IH]; simpl; [reflexivity|].
  intros H. rewrite IH by (intros r' Hin; apply H; now right).
  unfold Server.addLike.
  destruct (Z.eqb_spec (Server.id r) target) as [Heq|_]; [|reflexivity].
  now destruct (H r (or_introl eq_refl)).
Qed.

(** X13.  A complete story is inserted as posted: the answer is the new
    row, with the posted title, content and author, no likes and the
    time of the insert; its id is larger than the id of every row there
    was, the table is the old table with the row at its end, the row is
    found under its id, and the settings are not touched. *)
Theorem X13_posted_story_is_stored (now t c a : string)
  (db : Server.Database) :
  t <> "" -> c <> "" -> a <> "" ->
  let body := Server.mkStoryBody (Some t) (Some c) (Some a) in
  let story := Server.mkStory (Server.nextId db) t c a 0 now in
  let db' := fst (Server.postStory now body db) in
  snd (Server.postStory now body db) = Server.Created story
  /\ Server.stories db' = (Server.stories db ++ [story])%list
  /\ (forall r, In r (Server.stories db) ->
        (Server.id r < Server.id story)%Z)
  /\ (Server.selectById (Server.id story) (Server.stories db') = Some story)
  /\ Server.settings db' = Server.settings db.
Proof.
  intros Ht Hc Ha. cbv zeta.
  apply truthy_true_iff in Ht, Hc, Ha.
  unfold Server.postStory. simpl. rewrite Ht, Hc, Ha. simpl.
  split; [reflexivity|]. split; [reflexivity|].
  split; [apply nextId_fresh|]. split; [|reflexivity].
  rewrite selectById_app.
  destruct (Server.selectById (Server.nextId db) (Server.stories db))
    as [r|] eqn:Hr.
  - apply selectById_id in Hr as [Hid Hin].
    apply nextId_fresh in Hin. lia.
  - simpl. now rewrite Z.eqb_refl.
Qed.

Lemma X13_posted_story_is_stored_witness :
  let db := Server.initialize Server.emptyDatabase in
  snd (Server.postStory "2026-01-01 10:00:00"
         (Server.mkStoryBody (Some "The well") (Some "Once.") (Some "Asha"))
         db)
  = Server.Created
      (Server.mkStory 1 "The well" "Once." "Asha" 0 "2026-01-01 10:00:00").
Proof.
  apply (X13_posted_story_is_stored "2026-01-01 10:00:00" "The well" "Once."
           "Asha" (Server.initialize Server.emptyDatabase));
    discriminate.
Defined.

Lemma serve_ids (r : Server.Request) (db : Server.Database) :
  map Server.id (Server.stories (Server.serve r db))
  = map Server.id (Server.stories db)
  \/ map Server.id (Server.stories (Server.serve r db))
     = (map Server.id (Server.stories db) ++ [Server.nextId db])%list.
Proof.
  destruct r as [u|now body|target]; simpl.
  - now left.
  - unfold Server.postStory.
    destruct (Server.body_title body), (Server.body_content body),
      (Server.body_author body); try (now left).
    destruct (_ && _ && _); [|now left].
    right. simpl. now rewrite map_app.
  - left. apply map_addLike_ids.
Qed.

(** X14.  The ids of the stories are kept apart and are never given up:
    if no two rows share an id, no two rows share one after any
    sequence of requests, and the ids there were are still there, in
    their places, with the new ones behind them: no route removes a
    story or gives it another id. *)
Theorem X14_ids_stay_unique (rs : list Server.Request)
  (db : Server.Database) :
  Server.uniqueIds db ->
  Server.uniqueIds (Server.serveAll rs db)
  /\ exists new,
       map Server.id (Server.stories (Server.serveAll rs db))
       = (map Server.id (Server.stories db) ++ new)%list.
Proof.
  unfold Server.uniqueIds. revert db.
  induction rs as [|r rs IH]; intros db Huniq; simpl.
  - split; [exact Huniq|]. exists []. now rewrite app_nil_r.
  - destruct (serve_ids r db) as [Hsame|Hnew].
    + destruct (IH (Server.serve r db)) as [Hu [new Hn]];
        [now rewrite Hsame|].
      split; [exact Hu|]. exists new. now rewrite Hn, Hsame.
    + destruct (IH (Server.serve r db)) as [Hu [new Hn]].
      { rewrite Hnew. apply NoDup_app. split; [exact Huniq|].
        split; [|apply NoDup_singleton].
        intros i Hi Hi'. apply list_elem_of_singleton in Hi'. subst i.
        apply list_elem_of_In, in_map_iff in Hi as (r' & Hid & Hin).
        apply nextId_fresh in Hin. lia. }
      split; [exact Hu|]. exists ([Server.nextId db] ++ new)%list.
      now rewrite Hn, Hnew, app_assoc.
Qed.

Lemma X14_ids_stay_unique_witness :
  Server.uniqueIds
    (Server.serveAll
       [Server.PostStory "2026-01-01 10:00:00"
          (Server.mkStoryBody (Some "A") (Some "a") (Some "x"));
        Server.LikeStory 1;
        Server.PostStory "2026-01-01 10:00:00"
          (Server.mkStoryBody (Some "B") (Some "b") (Some "y"))]
       Server.emptyDatabase).
Proof.
  apply (X14_ids_stay_unique _ Server.emptyDatabase). constructor.
Defined.

Lemma story_eta (r : Server.Story) :
  Server.mkStory (Server.id r) (Server.title r) (Server.content r)
    (Server.author r) (Server.likes r) (Server.created_at r) = r.
Proof. now destruct r. Qed.

(** X15.  Every like is counted and nothing else moves a story: after
    any sequence of requests a story that was in the table is still
    there with its title, content, author and time, and its likes are
    the likes it had plus the number of like requests made for its id,
    whatever other requests came in between. *)
Theorem X15_likes_are_counted (rs : list Server.Request)
  (db : Server.Database) (target : Z) (r : Server.Story) :
  Server.selectById target (Server.stories db) = Some r ->
  Server.selectById target (Server.stories (Server.serveAll rs db))
  = Some (Server.mkStory (Server.id r) (Server.title r) (Server.content r)
            (Server.author r)
            (Server.likes r + Server.likesFor target rs)
            (Server.created_at r)).
Proof.
  revert db r. induction rs as [|q rs IH]; intros db r Hr; simpl.
  - now rewrite Z.add_0_r, story_eta.
  - destruct q as [u|now body|liked]; simpl.
    + now apply IH.
    + apply IH. unfold Server.postStory.
      destruct (Server.body_title body), (Server.body_content body),
        (Server.body_author body); try exact Hr.
      destruct (_ && _ && _); [|exact Hr].
      simpl. now rewrite selectById_app, Hr.
    + pose proof (selectById_id _ _ _ Hr) as [Hid _].
      rewrite (IH _ (Server.addLike liked r)).
      2:{ simpl. now rewrite selectById_addLike, Hr. }
      unfold Server.addLike. rewrite Hid, (Z.eqb_sym liked target).
      destruct (target =? liked)%Z; simpl; f_equal; f_equal; lia.
Qed.

Lemma X15_likes_are_counted_witness :
  let db :=
    Server.mkDatabase ∅
      [Server.mkStory 1 "A" "a" "x" 5 "2026-01-01 10:00:00"] 1 in
  Server.selectById 1
    (Server.stories
       (Server.serveAll
          [Server.LikeStory 1; Server.LikeStory 7; Server.PostSettings "u";
           Server.LikeStory 1] db))
  = Some (Server.mkStory 1 "A" "a" "x" (5 + 2) "2026-01-01 10:00:00").
Proof.
  apply (X15_likes_are_counted
           [Server.LikeStory 1; Server.LikeStory 7; Server.PostSettings "u";
            Server.LikeStory 1]
           (Server.mkDatabase ∅
              [Server.mkStory 1 "A" "a" "x" 5 "2026-01-01 10:00:00"] 1)
           1 (Server.mkStory 1 "A" "a" "x" 5 "2026-01-01 10:00:00")).
  reflexivity.
Defined.

(** X16.  A like touches one story.  The answer is the row of that id
    with one like more, the rows of every other id are as before, and no
    row is added or removed; for an id that has no row the database is
    as before and the answer has no body. *)
Theorem X16_like_touches_one_story (target : Z) (db : Server.Database) :
  let db' := fst (Server.likeStory target db) in
  snd (Server.likeStory target db)
  = Server.addLike target
      <$> Server.selectById target (Server.stories db)
  /\ (forall r, Server.selectById target (Server.stories db) = Some r ->
        Server.likes (Server.addLike target r) = (Server.likes r + 1)%Z)
  /\ (forall other, other <> target ->
        Server.selectById other (Server.stories db')
        = Server.selectById other (Server.stories db))
  /\ map Server.id (Server.stories db') = map Server.id (Server.stories db)
  /\ (Server.selectById target (Server.stories db) = None ->
      Server.likeStory target db = (db, None)).
Proof.
  cbv zeta. unfold Server.likeStory. simpl.
  split; [apply selectById_addLike|].
  split; [|split; [|split; [apply map_addLike_ids|]]].
  - intros r Hr. apply selectById_id in Hr as [Hid _].
    unfold Server.addLike. now rewrite Hid, Z.eqb_refl.
  - intros other Hne. rewrite selectById_addLike.
    destruct (Server.selectById other (Server.stories db)) as [r|] eqn:Hr;
      [|reflexivity].
    apply selectById_id in Hr as [Hid _]. simpl. f_equal.
    unfold Server.addLike.
    destruct (Z.eqb_spec (Server.id r) target); [congruence | reflexivity].
  - intros Hnone. rewrite selectById_addLike, Hnone. simpl.
    rewrite map_addLike_absent by now apply selectById_None.
    now destruct db.
Qed.

End ServerStories.

Section ServerListing.

Lemma newerFirst_transitive (a b c : Server.Story) :
  Server.newerFirst a b -> Server.newerFirst b c -> Server.newerFirst a c.
Proof.
  unfold Server.newerFirst. intros Hab Hbc.
  exact (transitivity (R := String.le) Hbc Hab).
Qed.

Lemma newerFirst_total (a b : Server.Story) :
  Server.newerFirst a b \/ Server.newerFirst b a.
Proof.
  unfold Server.newerFirst.
  destruct (String.le_total (Server.created_at a) (Server.created_at b));
    auto.
Qed.

Lemma newerFirst_head (s : Server.Story) (rest : list Server.Story) :
  Sorted Server.newerFirst (s :: rest) ->
  forall r, In r (s :: rest) -> Server.newerFirst s r.
Proof.
  intros Hsorted r Hin.
  apply (@Sorted_StronglySorted _ Server.newerFirst) in Hsorted;
    [|exact newerFirst_transitive].
  apply StronglySorted_inv in Hsorted as [_ Hall].
  destruct Hin as [<-|Hin].
  - unfold Server.newerFirst. reflexivity.
  - rewrite List.Forall_forall in Hall. now apply Hall.
Qed.

Lemma listStories_is_listing (db : Server.Database) :
  Server.Listing db (Server.listStories db).
Proof.
  split; [apply merge_sort_Permutation|].
  apply (@Sorted_merge_sort _ Server.newerFirst _).
  intros a b. apply newerFirst_total.
Qed.

(** X17.  What [GET /api/stories] answers.  There is an answer for every
    table; every answer holds each row of the table exactly as often as
    the table does, so it has as many stories as the table; its first
    story is one that no other is newer than; and when one story is
    strictly newer than all the others, as a story just posted is once
    the clock has moved on, every answer starts with it. *)
Theorem X17_stories_are_listed_newest_first (db : Server.Database)
  (l : list Server.Story) :
  Server.Listing db (Server.listStories db)
  /\ (Server.Listing db l ->
      length l = length (Server.stories db)
      /\ (forall r, In r l <-> In r (Server.stories db))
      /\ (forall s rest, l = s :: rest ->
            forall r, In r (Server.stories db) ->
                      String.le (Server.created_at r) (Server.created_at s))
      /\ (forall s,
            In s (Server.stories db) ->
            (forall r, In r (Server.stories db) -> r <> s ->
                       ~ String.le (Server.created_at s)
                           (Server.created_at r)) ->
            exists rest, l = s :: rest)).
Proof.
  split; [apply listStories_is_listing|].
  - intros [Hperm Hsorted].
    assert (forall r, In r l <-> In r (Server.stories db)) as Hin.
    { intros r. split; apply Permutation_in;
        [exact Hperm | symmetry; exact Hperm]. }
    split; [now apply Permutation_length|]. split; [exact Hin|]. split.
    + intros s rest -> r Hr. apply Hin in Hr.
      exact (newerFirst_head s rest Hsorted r Hr).
    + intros s Hs Hnewest.
      destruct l as [|h rest]; [now apply Hin in Hs|].
      exists rest. f_equal.
      assert ({h = s} + {h <> s}) as [Heq|Hne]
        by (decide equality; (apply Z.eq_dec || apply string_dec));
        [exact Heq|].
      exfalso. apply (Hnewest h); [apply Hin; now left | exact Hne|].
      apply Hin in Hs. exact (newerFirst_head h rest Hsorted s Hs).
Qed.

Lemma X17_stories_are_listed_newest_first_witness :
  let db :=
    Server.mkDatabase ∅
      [Server.mkStory 1 "A" "a" "x" 0 "2026-01-01 10:00:00";
       Server.mkStory 2 "B" "b" "y" 0 "2026-01-02 09:30:00"] 2 in
  Server.listStories db
  = [Server.mkStory 2 "B" "b" "y" 0 "2026-01-02 09:30:00";
     Server.mkStory 1 "A" "a" "x" 0 "2026-01-01 10:00:00"]
  /\ length (Server.listStories db) = length (Server.stories db).
Proof.
  split; [reflexivity|].
  apply (proj2 (X17_stories_are_listed_newest_first
                  (Server.mkDatabase ∅
                     [Server.mkStory 1 "A" "a" "x" 0 "2026-01-01 10:00:00";
                      Server.mkStory 2 "B" "b" "y" 0 "2026-01-02 09:30:00"]
                     2)
                  _)).
  apply listStories_is_listing.
Defined.

End ServerListing.

(** * The component and the server together *)

Section SiteSettings.
Import JsString App Feed.

(** The settings handlers act on the state of the gate as the settings
    events of the page do. *)
Lemma fetchSettings_settle_as_event (loc : Location) (ok : bool)
  (data : gmap string string) (p : Page) (s : System) :
  world s = gate p ->
  gate (fetchSettings_settle (Answered ok (Some data)) p)
  = world (step loc (SettingsFetched (data !! "authorized_url")) s).
Proof.
  intros Hw. simpl.
  destruct (data !! "authorized_url") as [url|]; [|now rewrite Hw].
  destruct (truthy url); simpl; now rewrite Hw.
Qed.

Lemma handleSaveSettings_settle_as_event (loc : Location) (saved : string)
  (p : Page) (s : System) :
  world s = gate p ->
  gate (handleSaveSettings_settle saved (Answered true (Some tt)) p)
  = world (step loc (SettingsSaved saved) s).
Proof. intros Hw. simpl. now rewrite Hw. Qed.


End SiteSettings.

Section SiteStories.
Import JsString App Feed.



Lemma unique_row (rows : list Server.Story) (a b : Server.Story) :
  NoDup (map Server.id rows) -> In a rows -> In b rows ->
  Server.id a = Server.id b -> a = b.
Proof.
  induction rows as [|r rows IH]; simpl; [intros _ []|].
  intros Huniq Ha Hb Hid. apply NoDup_cons in Huniq as [Hr Huniq].
  assert (forall x, In x rows -> Server.id x <> Server.id r) as Hfresh.
  { intros x Hx Heq. apply Hr. rewrite <- Heq.
    apply list_elem_of_In, in_map, Hx. }
  destruct Ha as [<-|Ha], Hb as [<-|Hb]; auto.
  - destruct (Hfresh b Hb). congruence.
  - destruct (Hfresh a Ha). congruence.
Qed.

Lemma replaceStory_addLike (target : Z) (rows feed : list Server.Story)
  (r : Server.Story) :
  NoDup (map Server.id rows) ->
  (forall s, In s feed -> In s rows) ->
  In r rows -> Server.id r = target ->
  replaceStory target (Server.addLike target r) feed
  = map (Server.addLike target) feed.
Proof.
  intros Huniq Hsub Hr Hid. unfold replaceStory.
  apply map_ext_in. intros s Hs.
  unfold Server.addLike at 2.
  destruct (Z.eqb_spec (Server.id s) target) as [Heq|Hne]; [|reflexivity].
  rewrite (unique_row rows r s Huniq Hr (Hsub s Hs)) by congruence.
  unfold Server.addLike. now rewrite Heq, Z.eqb_refl.
Qed.

(** X20.  A like answered for the list it was clicked in.  [handleLike]
    maps over the [stories] of the render of the click (line 144), not
    over what the page shows when the answer arrives.  When that list is
    still an answer of the story list for the table as the like reaches
    the server (nothing has changed the table since the list was
    fetched), the page, whatever it shows by then, comes to show that
    list with one like more on the liked story and every other story as
    it was, in the same places, and this is again an answer the server
    could give for its table now.  For an id that has no row the answer
    has no body: the failure is logged, and the list and the table
    stay. *)
Theorem X20_like_keeps_page_in_step (call : LikeCall)
  (db : Server.Database) (p : Page) :
  Server.uniqueIds db ->
  Server.Listing db (storiesAtClick call) ->
  let target := likedId call in
  let db' := fst (Server.likeStory target db) in
  let answer := snd (Server.likeStory target db) in
  let p' := handleLike_settle call (Answered true answer) p in
  (is_Some (Server.selectById target (Server.stories db)) ->
   stories p' = map (Server.addLike target) (storiesAtClick call)
   /\ Server.Listing db' (stories p')
   /\ gate p' = gate p)
  /\ (Server.selectById target (Server.stories db) = None ->
      stories p' = stories p
      /\ db' = db
      /\ consoleErrors (gate p')
         = (consoleErrors (gate p) ++ ["Failed to like story"])%list).
Proof.
  intros Huniq [Hperm Hsorted]. cbv zeta.
  unfold Server.likeStory in *. cbn [fst snd] in *.
  rewrite selectById_addLike. split.
  - intros [r Hr]. rewrite Hr. simpl.
    apply selectById_id in Hr as [Hid Hin].
    assert (replaceStory (likedId call)
              (Server.addLike (likedId call) r) (storiesAtClick call)
            = map (Server.addLike (likedId call)) (storiesAtClick call))
      as Hrep.
    { apply (replaceStory_addLike (likedId call) (Server.stories db));
        try assumption.
      intros s Hs. exact (Permutation_in _ Hperm Hs). }
    rewrite Hrep. split; [reflexivity|]. split; [|reflexivity].
    split; [now apply Permutation_map|].
    apply (Sorted_fmap (Server.addLike (likedId call)) Server.newerFirst
             Server.newerFirst); [|exact Hsorted].
    intros a b. unfold Server.newerFirst.
    now rewrite !addLike_created_at.
  - intros Hr. rewrite Hr. simpl. repeat split.
    rewrite map_addLike_absent by now apply selectById_None.
    now destruct db.
Qed.

Lemma X20_like_keeps_page_in_step_witness :
  let db :=
    Server.mkDatabase ∅
      [Server.mkStory 1 "A" "a" "x" 0 "2026-01-01 10:00:00";
       Server.mkStory 2 "B" "b" "y" 4 "2026-01-02 09:30:00"] 2 in
  let p := setStories (Server.listStories db) (initialPage ∅) in
  let call := handleLike_begin 2 p in
  Server.uniqueIds db
  /\ Server.Listing db (storiesAtClick call)
  /\ stories
       (handleLike_settle call
          (Answered true (snd (Server.likeStory 2 db))) p)
     = [Server.mkStory 2 "B" "b" "y" 5 "2026-01-02 09:30:00";
        Server.mkStory 1 "A" "a" "x" 0 "2026-01-01 10:00:00"].
Proof.
  cbv zeta.
  assert (Server.uniqueIds
            (Server.mkDatabase ∅
               [Server.mkStory 1 "A" "a" "x" 0 "2026-01-01 10:00:00";
                Server.mkStory 2 "B" "b" "y" 4 "2026-01-02 09:30:00"] 2))
    as Huniq.
  { unfold Server.uniqueIds. simpl. apply NoDup_cons.
    split; [|apply NoDup_singleton].
    rewrite list_elem_of_singleton. discriminate. }
  split; [exact Huniq|]. split; [apply listStories_is_listing|].
  destruct (X20_like_keeps_page_in_step
              (handleLike_begin 2
                 (setStories
                    (Server.listStories
                       (Server.mkDatabase ∅
                          [Server.mkStory 1 "A" "a" "x" 0
                             "2026-01-01 10:00:00";
                           Server.mkStory 2 "B" "b" "y" 4
                             "2026-01-02 09:30:00"] 2))
                    (initialPage ∅)))
              (Server.mkDatabase ∅
                 [Server.mkStory 1 "A" "a" "x" 0 "2026-01-01 10:00:00";
                  Server.mkStory 2 "B" "b" "y" 4 "2026-01-02 09:30:00"] 2)
              (setStories
                 (Server.listStories
                    (Server.mkDatabase ∅
                       [Server.mkStory 1 "A" "a" "x" 0 "2026-01-01 10:00:00";
                        Server.mkStory 2 "B" "b" "y" 4 "2026-01-02 09:30:00"]
                       2))
                 (initialPage ∅))
              Huniq
              (listStories_is_listing
                 (Server.mkDatabase ∅
                    [Server.mkStory 1 "A" "a" "x" 0 "2026-01-01 10:00:00";
                     Server.mkStory 2 "B" "b" "y" 4 "2026-01-02 09:30:00"]
                    2)))
    as [Hsome _].
  destruct (Hsome ltac:(eexists; reflexivity)) as [Heq _].
  exact Heq.
Defined.

(** Two likes in flight.  The hearts of both stories are clicked before
    either answer arrives, so both calls hold the list of the same
    render.  The first answer puts the like of story 1 on the page; the
    second answer, mapped over the old list, shows the like of story 2
    and takes the like of story 1 off again, while the table holds
    both: what the page shows is no longer a story list of the table. *)
Example two_likes_in_flight :
  let db :=
    Server.mkDatabase ∅
      [Server.mkStory 1 "A" "a" "x" 0 "2026-01-01 10:00:00";
       Server.mkStory 2 "B" "b" "y" 4 "2026-01-02 09:30:00"] 2 in
  let p := setStories (Server.listStories db) (initialPage ∅) in
  let first := handleLike_begin 1 p in
  let second := handleLike_begin 2 p in
  let db1 := fst (Server.likeStory 1 db) in
  let p1 :=
    handleLike_settle first (Answered true (snd (Server.likeStory 1 db))) p
  in
  let db2 := fst (Server.likeStory 2 db1) in
  let p2 :=
    handleLike_settle second (Answered true (snd (Server.likeStory 2 db1)))
      p1 in
  stories p1
  = [Server.mkStory 2 "B" "b" "y" 4 "2026-01-02 09:30:00";
     Server.mkStory 1 "A" "a" "x" 1 "2026-01-01 10:00:00"]
  /\ stories p2
     = [Server.mkStory 2 "B" "b" "y" 5 "2026-01-02 09:30:00";
        Server.mkStory 1 "A" "a" "x" 0 "2026-01-01 10:00:00"]
  /\ Server.stories db2
     = [Server.mkStory 1 "A" "a" "x" 1 "2026-01-01 10:00:00";
        Server.mkStory 2 "B" "b" "y" 5 "2026-01-02 09:30:00"]
  /\ ~ Server.Listing db2 (stories p2).
Proof.
  cbv zeta. split; [reflexivity|]. split; [reflexivity|].
  split; [reflexivity|].
  intros [Hperm _].
  assert (In (Server.mkStory 1 "A" "a" "x" 0 "2026-01-01 10:00:00")
            [Server.mkStory 1 "A" "a" "x" 1 "2026-01-01 10:00:00";
             Server.mkStory 2 "B" "b" "y" 5 "2026-01-02 09:30:00"])
    as [H|[H|[]]]; [|discriminate H|discriminate H].
  apply (Permutation_in _ Hperm). right. now left.
Qed.

(** A request that fails takes nothing away from the user.  When
    publishing is refused or does not get through, the title, the
    content, the author and the open editor are kept and the button is
    released; when the list, a like or the settings cannot be fetched,
    the stories shown and the configured URL are kept.  A failure of the
    network is logged once, a refusal is not logged, and neither shows
    an alert or touches the chat. *)
Lemma failures_keep_the_page (p : Page) (call : LikeCall)
  (saved : string) (ok : bool) :
  let refused := fst (handlePost_settle (Answered false (@None unit)) p) in
  let lost := fst (handlePost_settle (@NetworkError unit) p) in
  let unlisted := fetchStories_settle NetworkError p in
  let unparsed := fetchStories_settle (Answered ok None) p in
  let unliked := handleLike_settle call NetworkError p in
  let unsettled := fetchSettings_settle NetworkError p in
  let unsaved := handleSaveSettings_settle saved (@NetworkError unit) p in
  (react (gate refused) = react (gate p)
   /\ react (gate lost) = react (gate p)
   /\ author refused = author p /\ author lost = author p
   /\ isWriting refused = isWriting p /\ isWriting lost = isWriting p
   /\ isSubmitting refused = false /\ isSubmitting lost = false
   /\ snd (handlePost_settle (Answered false (@None unit)) p) = false
   /\ snd (handlePost_settle (@NetworkError unit) p) = false)
  /\ (stories unlisted = stories p /\ stories unparsed = stories p
      /\ stories unliked = stories p
      /\ isLoading unlisted = false /\ isLoading unparsed = false)
  /\ (react (gate unsettled) = react (gate p)
      /\ react (gate unsaved) = react (gate p)
      /\ tempUrl unsettled = tempUrl p /\ tempUrl unsaved = tempUrl p
      /\ isSettingsOpen unsaved = isSettingsOpen p)
  /\ (consoleErrors (gate refused) = consoleErrors (gate p)
      /\ consoleErrors (gate lost)
         = (consoleErrors (gate p) ++ ["Failed to post story"])%list
      /\ consoleErrors (gate unlisted)
         = (consoleErrors (gate p) ++ ["Failed to fetch stories"])%list
      /\ consoleErrors (gate unliked)
         = (consoleErrors (gate p) ++ ["Failed to like story"])%list
      /\ consoleErrors (gate unsettled)
         = (consoleErrors (gate p) ++ ["Failed to fetch settings"])%list
      /\ consoleErrors (gate unsaved)
         = (consoleErrors (gate p) ++ ["Failed to save settings"])%list)
  /\ Forall (fun q => alerts (gate q) = alerts (gate p))
       [refused; lost; unlisted; unparsed; unliked; unsettled; unsaved].
Proof. cbv zeta. repeat split; repeat constructor. Qed.

End SiteStories.

(** * The chat form at the limit *)

Section ChatForm.
Import JsString JsNumber App Props Notices.

(** X21.  Under the chat input there is, for every count that is a
    number, exactly one of the three lines: the limit notice, the number
    of messages remaining, or the owner's notice.  While the limit
    notice is shown the input and the button are disabled and the
    placeholder says so: typing and submitting change nothing.  With the
    count [NaN] on the shared host none of the lines is shown and the
    form stays open. *)
Theorem X21_chat_form_notices (loc : Location) (s : System) :
  let st := react (world s) in
  (forall c, messageCount st = Int c ->
     (limitNoticeShown loc st = true
      /\ remainingShown loc st = None /\ ownerNoticeShown loc = false)
     \/ (limitNoticeShown loc st = false
         /\ is_Some (remainingShown loc st) /\ ownerNoticeShown loc = false)
     \/ (limitNoticeShown loc st = false
         /\ remainingShown loc st = None /\ ownerNoticeShown loc = true))
  /\ (limitNoticeShown loc st = true ->
      chatPlaceholder loc st = "Limit reached"
      /\ (forall v, step loc (ChangeChatInput v) s = s)
      /\ step loc SubmitChat s = s)
  /\ (isSharedUrl loc = true -> messageCount st = NaN ->
      limitNoticeShown loc st = false
      /\ remainingShown loc st = None
      /\ ownerNoticeShown loc = false
      /\ chatInputDisabled loc st = false).
Proof.
  cbv zeta.
  unfold limitNoticeShown, remainingShown, ownerNoticeShown, chatPlaceholder,
    chatInputDisabled.
  split; [|split].
  - intros c ->. destruct (isSharedUrl loc); simpl; [|auto].
    destruct (Z.leb_spec 3 c), (Z.ltb_spec c 3); try lia; eauto 10.
  - intros Hlim. rewrite Hlim. split; [reflexivity|].
    split; [intros v|]; simpl; unfold chatInputDisabled, chatSubmitDisabled;
      rewrite Hlim; [reflexivity|].
    now rewrite orb_true_r.
  - intros -> ->. repeat split.
Qed.

Lemma X21_chat_form_notices_witness :
  let s :=
    mkSystem (chatWorld (origin sharedLocation) "more" (Int 3)) [] [] [] in
  limitNoticeShown sharedLocation (react (world s)) = true
  /\ step sharedLocation SubmitChat s = s.
Proof.
  split; [reflexivity|].
  apply (X21_chat_form_notices sharedLocation
           (mkSystem (chatWorld (origin sharedLocation) "more" (Int 3))
              [] [] [])).
  reflexivity.
Defined.

End ChatForm.
